(** * CASP: static profile export

    A shallow embedding of [lib/StaticProfileExporter.cpp]: the lookup of the
    instrumentation metadata, the conversion of block frequencies to counter
    values and the per-function loop of [StaticProfileExporterPass::run].

    Conventions.  A [uint64_t] is a [Z] in [0, 2^64) and an [unsigned] a [Z]
    in [0, 2^32); every operation that can leave the range is written with
    its wrap-around.  A [std::vector] is a [list], [push_back] appends at the
    end.  The symbol table of a module is a finite map from names to global
    variables.  LLVM library routines whose code is not part of this
    repository (name mangling, the MD5 name hash, the block-frequency
    analysis, the profile writer) are Section variables. *)

From Stdlib Require Import ZArith Lia Ascii String.
From stdpp Require Import base decidable option list sorting strings gmap.

Set Warnings "-register-all".
Local Open Scope Z_scope.

(** ** Machine integers *)

Definition wrap64 (z : Z) : Z := z mod 2 ^ 64.
Definition wrap32 (z : Z) : Z := z mod 2 ^ 32.

(** [static constexpr uint64_t DefaultEntryCount = 100;] *)
Definition DefaultEntryCount : Z := 100.

(** ** The fragment of the IR the exporter inspects *)

(** A basic block is identified by its address; a natural number stands for
    it. *)
Definition BasicBlock := nat.

(** Constants: the exporter only distinguishes integer constants, constant
    structs and everything else. *)
Inductive Constant :=
| ConstantInt (value : Z)
| ConstantStruct (operands : list Constant)
| ConstantOther.

(** [ConstantInt::getZExtValue()], a [uint64_t]. *)
Definition getZExtValue (value : Z) : Z := wrap64 value.

(** A global variable; [getInitializer()] is null when there is none. *)
Record GlobalVariable := mkGlobal { getInitializer : option Constant }.

(** A function: its name and its basic blocks in declaration order. *)
Record Function := mkFunction {
  getName : string;
  blocks : list BasicBlock
}.

(** [F.isDeclaration()]: the function has no body. *)
Definition isDeclaration (F : Function) : bool :=
  match blocks F with [] => true | _ :: _ => false end.

(** [F.getEntryBlock()] is [front()] of the block list; on an empty list its
    behaviour is undefined, which [None] stands for. *)
Definition getEntryBlock (F : Function) : option BasicBlock := head (blocks F).

Record Module := mkModule {
  functions : list Function;
  globals : gmap string GlobalVariable
}.

Definition getNamedGlobal (M : Module) (name : string) : option GlobalVariable :=
  globals M !! name.

(** [BlockFrequencyInfo]: the frequency of every block, a [uint64_t]. *)
Definition BlockFrequencyInfo := BasicBlock → Z.

Definition getBlockFreq (BFI : BlockFrequencyInfo) (BB : BasicBlock) : Z := BFI BB.

(** The frequencies an analysis can hand over are 64-bit unsigned. *)
Definition valid_BFI (BFI : BlockFrequencyInfo) : Prop :=
  ∀ BB, 0 ≤ BFI BB < 2 ^ 64.

(** ** Hexadecimal formatting *)

Definition hex_digit_upper (d : Z) : string :=
  match d with
  | 0 => "0" | 1 => "1" | 2 => "2" | 3 => "3" | 4 => "4" | 5 => "5"
  | 6 => "6" | 7 => "7" | 8 => "8" | 9 => "9" | 10 => "A" | 11 => "B"
  | 12 => "C" | 13 => "D" | 14 => "E" | _ => "F"
  end%string.

(** The [width] low hexadecimal digits of [n], most significant first. *)
Fixpoint hex_digits (width : nat) (n : Z) : string :=
  match width with
  | O => ""
  | S w => hex_digits w (n / 16) +:+ hex_digit_upper (n mod 16)
  end.

(** [format_hex_no_prefix(N, 16, /*Upper=*/true)] of a [uint64_t]: sixteen
    upper-case digits, padded with zeros. *)
Definition format_hex_no_prefix_16_upper (n : Z) : string := hex_digits 16 n.

(** ** The exporter *)

Section Exporter.

(** [getPGOFuncName], [getIRPGOFuncName] and
    [IndexedInstrProf::ComputeHash] of LLVM's ProfileData library. *)
Variable getPGOFuncName : Function → string.
Variable getIRPGOFuncName : Function → string.
Variable ComputeHash : string → Z.

(** *** Metadata lookup *)

Definition covrec_name (F : Function) : string :=
  "__covrec_" +:+ format_hex_no_prefix_16_upper (ComputeHash (getPGOFuncName F)) +:+ "u".

Definition tryExtractCoverageHash (M : Module) (F : Function) : option Z :=
  match getNamedGlobal M (covrec_name F) with
  | Some CovRec =>
      match getInitializer CovRec with
      | Some (ConstantStruct CS) =>
          if decide (3 ≤ length CS)%nat then
            match CS !! 2%nat with
            | Some (ConstantInt StructHashVal) => Some (getZExtValue StructHashVal)
            | _ => None
            end
          else None
      | _ => None
      end
  | None => None
  end.

Definition computeFunctionHash (M : Module) (F : Function) : Z :=
  match tryExtractCoverageHash M F with
  | Some CovHash => CovHash
  | None => ComputeHash (getPGOFuncName F)
  end.

Definition profd_name (F : Function) : string := "__profd_" +:+ getPGOFuncName F.

(** The counter count is an [unsigned]: the 64-bit value of the field is
    truncated to 32 bits. *)
Definition tryExtractCounterCount (M : Module) (F : Function) : option nat :=
  match getNamedGlobal M (profd_name F) with
  | Some Profd =>
      match getInitializer Profd with
      | Some (ConstantStruct CS) =>
          if decide (6 < length CS)%nat then
            match CS !! 6%nat with
            | Some (ConstantInt NumCounters) =>
                Some (Z.to_nat (wrap32 (getZExtValue NumCounters)))
            | _ => None
            end
          else None
      | _ => None
      end
  | None => None
  end.

(** *** Frequencies to counts *)

(** [(DefaultEntryCount * BBFreq.getFrequency()) / EntryFreq.getFrequency()]
    in 64-bit unsigned arithmetic. *)
Definition ScaledCount (BFI : BlockFrequencyInfo) (EntryFreq : Z) (BB : BasicBlock) : Z :=
  wrap64 (DefaultEntryCount * getBlockFreq BFI BB) / EntryFreq.

(** [std::sort(BlockFreqs.rbegin(), BlockFreqs.rend())]: the reversed view
    of the vector is put in ascending order. *)
Definition sort_reversed (BlockFreqs : list Z) : list Z :=
  reverse (merge_sort Z.le (reverse BlockFreqs)).

(** The value pushed for counter [i] in the instrumented branch; [i + 1]
    is computed on [unsigned]. *)
Definition counter_value (BlockFreqs : list Z) (i : nat) : Z :=
  if decide (i < length BlockFreqs)%nat
  then default 0 (BlockFreqs !! i)
  else DefaultEntryCount / wrap32 (Z.of_nat i + 1).

(** [for (unsigned i = 1; i < InstrCounterCount; ++i)], started at [i]
    with [fuel] bounding the number of iterations left. *)
Fixpoint assign_counters (fuel : nat) (InstrCounterCount : nat)
    (BlockFreqs : list Z) (i : nat) (Counts : list Z) : list Z :=
  match fuel with
  | O => Counts
  | S fuel' =>
      if decide (i < InstrCounterCount)%nat
      then assign_counters fuel' InstrCounterCount BlockFreqs (S i)
             (Counts ++ [counter_value BlockFreqs i])
      else Counts
  end.

(** [Counts.empty()] *)
Definition vector_empty (Counts : list Z) : bool :=
  match Counts with [] => true | _ :: _ => false end.

(** [convertBFIToCounts]: [Counts] is the out-parameter, the result pairs
    the returned flag with its final contents.  [None] only stands for the
    undefined [getEntryBlock] of a function without blocks. *)
Definition convertBFIToCounts (M : Module) (F : Function)
    (BFI : BlockFrequencyInfo) (Counts : list Z) : option (bool * list Z) :=
  match getEntryBlock F with
  | None => None
  | Some EntryBB =>
      let EntryFreq := getBlockFreq BFI EntryBB in
      if decide (EntryFreq = 0) then Some (false, Counts)
      else
        let Counts := [] in
        let Counts :=
          match tryExtractCounterCount M F with
          | Some InstrCounterCount =>
              let BlockFreqs := ScaledCount BFI EntryFreq <$> blocks F in
              let BlockFreqs := sort_reversed BlockFreqs in
              let Counts := Counts ++ [DefaultEntryCount] in
              assign_counters InstrCounterCount InstrCounterCount BlockFreqs 1 Counts
          | None =>
              ScaledCount BFI EntryFreq <$> blocks F
          end in
        Some (negb (vector_empty Counts), Counts)
  end.

(** *** The pass *)

(** [NamedInstrProfRecord(FuncName, FuncHash, Counts)] *)
Record NamedInstrProfRecord := mkRecord {
  Name : string;
  Hash : Z;
  RecordCounts : list Z
}.

(** The profile writer and its error type belong to LLVM.  [addRecord]
    returns the writer after the call and the errors it handed, one call
    each and in order, to the warning callback. *)
Variable InstrProfWriter : Type.
Variable Error : Type.
Variable addRecord :
  InstrProfWriter → NamedInstrProfRecord → Z → InstrProfWriter * list Error.

(** [FAM.getResult<BlockFrequencyAnalysis>(F)] *)
Variable BlockFrequencyAnalysis : Function → BlockFrequencyInfo.

(** The locals of [run] that the loop updates; the two tallies are
    [unsigned]. *)
Record ExportState := mkState {
  Writer : InstrProfWriter;
  FunctionsProcessed : Z;
  FunctionsSkipped : Z
}.

(** [++n] on an [unsigned] *)
Definition incr (n : Z) : Z := wrap32 (n + 1).

(** The callback passed to [addRecord]: [++FunctionsSkipped], once for
    every error reported. *)
Definition warn_all (Errs : list Error) (FunctionsSkipped : Z) : Z :=
  foldl (λ skipped _, incr skipped) FunctionsSkipped Errs.

(** One iteration of [for (Function &F : M)]. *)
Definition run_function (M : Module) (st : ExportState) (F : Function)
    : option ExportState :=
  if isDeclaration F then Some st
  else
    match convertBFIToCounts M F (BlockFrequencyAnalysis F) [] with
    | None => None
    | Some (false, _) =>
        Some (mkState (Writer st) (FunctionsProcessed st)
                      (incr (FunctionsSkipped st)))
    | Some (true, Counts) =>
        let FuncName := getIRPGOFuncName F in
        let FuncHash := computeFunctionHash M F in
        let Record := mkRecord FuncName FuncHash Counts in
        let '(Writer', Errs) := addRecord (Writer st) Record 1 in
        Some (mkState Writer'
                      (incr (FunctionsProcessed st))
                      (warn_all Errs (FunctionsSkipped st)))
    end.

(** The loop over the functions that are left. *)
Fixpoint run_loop (M : Module) (Fs : list Function) (st : ExportState)
    : option ExportState :=
  match Fs with
  | [] => Some st
  | F :: Fs' =>
      match run_function M st F with
      | Some st' => run_loop M Fs' st'
      | None => None
      end
  end.

(** What [run] does once the loop is over: nothing without an output
    path, nothing when no function was processed, else the writer is
    serialised to [ProfilePath] (the file operations are LLVM's). *)
Inductive RunOutcome :=
| NoOutputPath
| NoFunctionsProcessed (FunctionsSkipped : Z)
| WriteProfile (ProfilePath : string) (st : ExportState).

Definition run (ProfilePath : string) (EmptyWriter : InstrProfWriter)
    (M : Module) : option RunOutcome :=
  if decide (ProfilePath = "") then Some NoOutputPath
  else
    match run_loop M (functions M) (mkState EmptyWriter 0 0) with
    | None => None
    | Some st =>
        if decide (FunctionsProcessed st = 0)
        then Some (NoFunctionsProcessed (FunctionsSkipped st))
        else Some (WriteProfile ProfilePath st)
    end.

End Exporter.

Arguments mkState {InstrProfWriter} _ _ _.
Arguments Writer {InstrProfWriter} _.
Arguments FunctionsProcessed {InstrProfWriter} _.
Arguments FunctionsSkipped {InstrProfWriter} _.
Arguments NoOutputPath {InstrProfWriter}.
Arguments NoFunctionsProcessed {InstrProfWriter} _.
Arguments WriteProfile {InstrProfWriter} _ _.
Arguments warn_all {Error} _ _.
Arguments run_function _ _ _ {InstrProfWriter Error} _ _ _ _ _.
Arguments run_loop _ _ _ {InstrProfWriter Error} _ _ _ _ _.
Arguments run _ _ _ {InstrProfWriter Error} _ _ _ _ _.

(** ** Concrete collaborators and inputs for the scenarios *)

(** Profile names as LLVM forms them for a function with external linkage:
    the name without the leading ['\001'] escape. *)
Definition escape : ascii := ascii_of_nat 1.

Definition external_name (F : Function) : string :=
  match getName F with
  | String c rest => if decide (c = escape) then rest else String c rest
  | EmptyString => EmptyString
  end.

(** A name hash for the scenarios: the length of the name. *)
Definition length_hash (name : string) : Z := Z.of_nat (String.length name).

(** A writer in the manner of LLVM's [InstrProfWriter]: records are keyed by
    name and hash; the first record of a key is stored, a later one with
    another number of counters is reported as a count mismatch and dropped,
    and one with the same number is added to the stored record. *)
Inductive instrprof_error := count_mismatch.

Definition ListWriter := list NamedInstrProfRecord.

Definition same_key (R Q : NamedInstrProfRecord) : bool :=
  bool_decide (Name R = Name Q) && bool_decide (Hash R = Hash Q).

Fixpoint list_addRecord (W : ListWriter) (R : NamedInstrProfRecord) (Weight : Z)
    : ListWriter * list instrprof_error :=
  match W with
  | [] => ([R], [])
  | Q :: W' =>
      if same_key R Q then
        if decide (length (RecordCounts R) = length (RecordCounts Q))
        then (mkRecord (Name Q) (Hash Q)
                (zip_with (λ a b, wrap64 (a + Weight * b))
                   (RecordCounts Q) (RecordCounts R)) :: W', [])
        else (Q :: W', [count_mismatch])
      else
        let '(W'', Errs) := list_addRecord W' R Weight in (Q :: W'', Errs)
  end.

Definition profd_with (n : Z) : GlobalVariable :=
  mkGlobal (Some (ConstantStruct
    [ConstantInt 0; ConstantInt 0; ConstantInt 0; ConstantInt 0;
     ConstantOther; ConstantOther; ConstantInt n])).

Definition covrec_with (h : Z) : GlobalVariable :=
  mkGlobal (Some (ConstantStruct [ConstantInt 0; ConstantInt 0; ConstantInt h])).

(** A module holding [F] and a [__profd_] record that announces [n]
    counters for it. *)
Definition module_hint (F : Function) (n : Z) : Module :=
  mkModule [F] {[ ("__profd_" +:+ external_name F)%string := profd_with n ]}.

(** A module holding [F] and a coverage record with structural hash [h]. *)
Definition module_covrec (F : Function) (h : Z) : Module :=
  mkModule [F] {[ covrec_name external_name length_hash F := covrec_with h ]}.

(** A module holding [Fs] and no instrumentation metadata. *)
Definition module_plain (Fs : list Function) : Module := mkModule Fs ∅.

Definition one_block : Function := mkFunction "g" [0%nat].
Definition two_blocks : Function := mkFunction "f" [0%nat; 1%nat].
Definition escaped_two_blocks : Function :=
  mkFunction (String escape "g") [0%nat; 1%nat].

Definition three_blocks : Function := mkFunction "h" [0%nat; 1%nat; 2%nat].

Definition freq_10_5 : BlockFrequencyInfo :=
  λ BB, match BB with O => 10 | _ => 5 end.
Definition freq_zero_entry : BlockFrequencyInfo :=
  λ BB, match BB with O => 0 | _ => 7 end.
Definition freq_huge : BlockFrequencyInfo := λ _, 2 ^ 63.

(** An analysis result whose entry frequency is 1024 and whose loop block
    has frequency [2^60]. *)
Definition freq_hot_loop : BlockFrequencyInfo :=
  λ BB, match BB with O => 1024 | _ => 2 ^ 60 end.

(** An entry of frequency 10, a block of frequency 5 and a loop body of
    frequency 20. *)
Definition freq_10_5_20 : BlockFrequencyInfo :=
  λ BB, match BB with O => 10 | S O => 5 | _ => 20 end.

(** ** Reading a hexadecimal string back *)

Definition hex_char_value (c : ascii) : Z :=
  match c with
  | "0" => 0 | "1" => 1 | "2" => 2 | "3" => 3 | "4" => 4 | "5" => 5
  | "6" => 6 | "7" => 7 | "8" => 8 | "9" => 9 | "A" => 10 | "B" => 11
  | "C" => 12 | "D" => 13 | "E" => 14 | "F" => 15 | _ => 0
  end%char.

(** The number a string of hexadecimal digits denotes, read from the left
    with [acc] the value of the digits already seen. *)
Fixpoint hex_value_from (acc : Z) (s : string) : Z :=
  match s with
  | EmptyString => acc
  | String c rest => hex_value_from (16 * acc + hex_char_value c) rest
  end.

Definition hex_value (s : string) : Z := hex_value_from 0 s.

(** ** What a run of the loop submits *)

Section Submitted.

Variable getPGOFuncName : Function → string.
Variable getIRPGOFuncName : Function → string.
Variable ComputeHash : string → Z.
Variable BlockFrequencyAnalysis : Function → BlockFrequencyInfo.

(** The record an iteration of the loop hands to [addRecord] for [F], if it
    gets that far: [F] has a body and its conversion returns [true]. *)
Definition record_for (M : Module) (F : Function) : option NamedInstrProfRecord :=
  if isDeclaration F then None
  else
    match convertBFIToCounts getPGOFuncName M F (BlockFrequencyAnalysis F) [] with
    | Some (true, Counts) =>
        Some (mkRecord (getIRPGOFuncName F)
                (computeFunctionHash getPGOFuncName ComputeHash M F) Counts)
    | _ => None
    end.

(** The records of the functions [Fs], in order. *)
Definition submitted (M : Module) (Fs : list Function) : list NamedInstrProfRecord :=
  omap (record_for M) Fs.

(** [F] has a body and its conversion returns [false]. *)
Definition conversion_failed (M : Module) (F : Function) : bool :=
  if isDeclaration F then false
  else
    match convertBFIToCounts getPGOFuncName M F (BlockFrequencyAnalysis F) [] with
    | Some (false, _) => true
    | _ => false
    end.

Variable InstrProfWriter : Type.
Variable Error : Type.
Variable addRecord :
  InstrProfWriter → NamedInstrProfRecord → Z → InstrProfWriter * list Error.

(** [addRecord] with weight 1 on each record of [Rs] in turn: the writer at
    the end and the number of errors reported on the way. *)
Fixpoint feed (W : InstrProfWriter) (Rs : list NamedInstrProfRecord)
    : InstrProfWriter * nat :=
  match Rs with
  | [] => (W, O)
  | R :: Rs' =>
      let '(W', Errs) := addRecord W R 1 in
      let '(W'', n) := feed W' Rs' in
      (W'', (length Errs + n)%nat)
  end.

End Submitted.

Arguments feed {InstrProfWriter Error} _ _ _.

(** A writer that keeps every record and never reports an error. *)
Definition log_addRecord (W : ListWriter) (R : NamedInstrProfRecord) (Weight : Z)
    : ListWriter * list instrprof_error := (W ++ [R], []).

(** ** The plugin ([lib/CASPPlugin.cpp]) *)

(** The optimizer-last callback registered by [registerCASPCallbacks], as a
    function of the two command-line options: the output paths of the
    exporter passes it adds to the module pass manager. *)
Definition registerCASPCallbacks (StaticProfileDumpPath : string)
    (StaticProfileDump : bool) : list string :=
  let OutputPath := StaticProfileDumpPath in
  let OutputPath :=
    if bool_decide (OutputPath = "") && StaticProfileDump
    then "default.profdata" else OutputPath in
  if negb (bool_decide (OutputPath = "")) then [OutputPath] else [].

(** ** The standalone tool ([lib/casp-tool.cpp]) *)

(** [argv[i]] *)
Definition argv_at (argv : list string) (i : nat) : string := default "" (argv !! i).

Definition is_help_flag (arg : string) : bool :=
  bool_decide (arg = "-h") || bool_decide (arg = "--help")
  || bool_decide (arg = "-help").

Section Tool.

Variable getPGOFuncName : Function → string.
Variable getIRPGOFuncName : Function → string.
Variable ComputeHash : string → Z.
Variable InstrProfWriter : Type.
Variable Error : Type.
Variable addRecord :
  InstrProfWriter → NamedInstrProfRecord → Z → InstrProfWriter * list Error.
Variable BlockFrequencyAnalysis : Function → BlockFrequencyInfo.
Variable EmptyWriter : InstrProfWriter.

(** [parseIRFile]: the module read from a file, or nothing. *)
Variable parseIRFile : string → option Module.

(** The ways [main] ends: after the help text, after the usage message,
    after a failed load, or after the pass has run on the module and the
    line ["Static profile written to: <OutputFilename>"] is printed. *)
Inductive ToolOutcome :=
| HelpPrinted
| UsagePrinted
| LoadFailed (InputFilename : string)
| ReportedWritten (OutputFilename : string)
    (PassOutcome : option (RunOutcome InstrProfWriter)).

(** [main(argc, argv)], with [argc] the length of [argv]. *)
Definition main (argv : list string) : ToolOutcome :=
  let argc := length argv in
  if bool_decide (argc = 2%nat) && is_help_flag (argv_at argv 1) then HelpPrinted
  else if bool_decide (argc < 2)%nat || bool_decide (3 < argc)%nat then UsagePrinted
  else
    let InputFilename := argv_at argv 1 in
    let OutputFilename :=
      if bool_decide (argc = 3%nat) then argv_at argv 2 else "output.profdata" in
    match parseIRFile InputFilename with
    | None => LoadFailed InputFilename
    | Some M =>
        ReportedWritten OutputFilename
          (run getPGOFuncName getIRPGOFuncName ComputeHash addRecord
             BlockFrequencyAnalysis OutputFilename EmptyWriter M)
    end.

(** The value [main] returns. *)
Definition exit_code (o : ToolOutcome) : Z :=
  match o with
  | HelpPrinted => 0
  | UsagePrinted => 1
  | LoadFailed _ => 1
  | ReportedWritten _ _ => 0
  end.

End Tool.

Arguments HelpPrinted {InstrProfWriter}.
Arguments UsagePrinted {InstrProfWriter}.
Arguments LoadFailed {InstrProfWriter} _.
Arguments ReportedWritten {InstrProfWriter} _ _.
Arguments main _ _ _ {InstrProfWriter Error} _ _ _ _ _.
Arguments exit_code {InstrProfWriter} _.

(** ** The example programs ([examples/]) *)

(** [buffer_copy.c].  A pointer is null or designates an array of [int];
    [dst] and [src] designate distinct arrays.  An access outside an array
    is undefined, which [None] stands for. *)
Fixpoint buffer_copy_loop (fuel n i : nat) (dst src : list Z) : option (list Z) :=
  match fuel with
  | O => Some dst
  | S fuel' =>
      if decide (i < n)%nat then
        match src !! i with
        | Some v =>
            if decide (i < length dst)%nat
            then buffer_copy_loop fuel' n (S i) (<[i := v]> dst) src
            else None
        | None => None
        end
      else Some dst
  end.

(** The returned [int] and the array behind [dst] after the call. *)
Definition buffer_copy (dst src : option (list Z)) (n : nat)
    : option (Z * option (list Z)) :=
  match dst, src with
  | Some d, Some s =>
      if decide (n = 0%nat) then Some (0, dst)
      else
        match buffer_copy_loop n n 0 d s with
        | Some d' => Some (0, Some d')
        | None => None
        end
  | _, _ => Some (-1, dst)
  end.

(** [simple.c].  The result of an [int] computation: a value, or the
    undefined signed overflow; [FuelExhausted] is the model running out of
    recursion depth. *)
Inductive int_result :=
| IntValue (v : Z)
| SignedOverflow
| FuelExhausted.

Definition INT_MIN : Z := - 2 ^ 31.
Definition INT_MAX : Z := 2 ^ 31 - 1.

(** [a * b] on [int] *)
Definition int_mul (a b : Z) : int_result :=
  if decide (INT_MIN ≤ a * b ≤ INT_MAX) then IntValue (a * b) else SignedOverflow.

Fixpoint factorial_fuel (fuel : nat) (n : Z) : int_result :=
  match fuel with
  | O => FuelExhausted
  | S fuel' =>
      if decide (n ≤ 1) then IntValue 1
      else
        match factorial_fuel fuel' (n - 1) with
        | IntValue r => int_mul n r
        | other => other
        end
  end.

(** The factorial of a natural number, as an integer. *)
Fixpoint Zfact (k : nat) : Z :=
  match k with
  | O => 1
  | S k' => Z.of_nat (S k') * Zfact k'
  end.

(** [factorial(n)]: the recursion is at most [n] deep. *)
Definition factorial (n : Z) : int_result := factorial_fuel (S (Z.to_nat n)) n.

(** An entry of frequency 1024 and two loop blocks of frequencies [2^60]
    and [2^61]. *)
Definition freq_hot_loops : BlockFrequencyInfo :=
  λ BB, match BB with O => 1024 | S O => 2 ^ 60 | _ => 2 ^ 61 end.

(** An analysis under which the entry of ["g"] never runs and every other
    function has an entry of frequency 10 and blocks of frequency 5. *)
Definition analysis_cold_g (F : Function) : BlockFrequencyInfo :=
  if bool_decide (getName F = "g") then freq_zero_entry else freq_10_5.

(** A writer that only keeps track of the calls: every record with the
    weight it came with, in order, and never an error. *)
Definition TraceWriter := list (NamedInstrProfRecord * Z).

Definition trace_addRecord (W : TraceWriter) (R : NamedInstrProfRecord) (Weight : Z)
    : TraceWriter * list instrprof_error := (W ++ [(R, Weight)], []).

(** * Properties *)

(** ** Machine arithmetic *)

Lemma wrap64_small z : 0 ≤ z < 2 ^ 64 → wrap64 z = z.
Proof. intros Hz. unfold wrap64. by apply Z.mod_small. Qed.

Lemma wrap32_small z : 0 ≤ z < 2 ^ 32 → wrap32 z = z.
Proof. intros Hz. unfold wrap32. by apply Z.mod_small. Qed.

Lemma wrap32_range z : 0 ≤ wrap32 z < 2 ^ 32.
Proof. unfold wrap32. apply Z.mod_pos_bound. lia. Qed.

(** The quotient [DefaultEntryCount / k] does not grow with [k]. *)
Lemma padding_antitone (j k : Z) :
  0 < j ≤ k → DefaultEntryCount / k ≤ DefaultEntryCount / j.
Proof.
  intros Hjk. unfold DefaultEntryCount.
  apply Z.div_le_compat_l; lia.
Qed.

(** ** The sort *)

Lemma sort_reversed_Permutation (l : list Z) : sort_reversed l ≡ₚ l.
Proof.
  unfold sort_reversed.
  rewrite reverse_Permutation, merge_sort_Permutation.
  apply reverse_Permutation.
Qed.

Lemma sort_reversed_Sorted (l : list Z) : Sorted (flip Z.le) (sort_reversed l).
Proof.
  unfold sort_reversed. apply Sorted_reverse, Sorted_merge_sort; apply _.
Qed.

Lemma sort_reversed_length (l : list Z) : length (sort_reversed l) = length l.
Proof. apply Permutation_length, sort_reversed_Permutation. Qed.

(** Since equal integers cannot be told apart, the descending arrangement of
    a vector is unique: whatever [std::sort] does internally, this is its
    result. *)
Lemma sort_reversed_unique (l k : list Z) :
  Sorted (flip Z.le) k → k ≡ₚ l → k = sort_reversed l.
Proof.
  intros Hk Hperm.
  assert (AntiSymm (=) (flip Z.le)) by (intros x y ??; unfold flip in *; lia).
  assert (Transitive (flip Z.le)) by (intros x y z ??; unfold flip in *; lia).
  apply (Sorted_unique (flip Z.le)); [done | apply sort_reversed_Sorted |].
  by rewrite sort_reversed_Permutation.
Qed.

(** In a descending vector a later slot never exceeds an earlier one. *)
Lemma descending_lookup (l : list Z) (i j : nat) (v w : Z) :
  Sorted (flip Z.le) l → (i ≤ j)%nat →
  l !! i = Some v → l !! j = Some w → w ≤ v.
Proof.
  intros Hs Hij Hi Hj.
  assert (Transitive (flip Z.le)) by (intros x y z ??; unfold flip in *; lia).
  apply Sorted_StronglySorted in Hs; [|done].
  destruct (decide (i = j)) as [->|Hne]; [naive_solver lia|].
  revert i j Hij Hne Hi Hj.
  induction Hs as [|x l Hs IH Hall]; intros i j Hij Hne Hi Hj; [done|].
  destruct i as [|i], j as [|j]; simplify_eq/=; try lia.
  - rewrite Forall_forall in Hall. apply (Hall w).
    by eapply list_elem_of_lookup_2.
  - eapply (IH i j); eauto with lia.
Qed.

(** ** The counter loop *)

Lemma assign_counters_spec (fuel N : nat) (BlockFreqs : list Z) (i : nat)
    (Counts : list Z) :
  assign_counters fuel N BlockFreqs i Counts
  = Counts ++ (counter_value BlockFreqs <$> seq i (fuel `min` (N - i))).
Proof.
  revert i Counts.
  induction fuel as [|fuel IH]; intros i Counts; cbn [assign_counters].
  { by rewrite Nat.min_0_l, app_nil_r. }
  case_decide as Hlt.
  - rewrite IH, <-app_assoc.
    replace (S fuel `min` (N - i))%nat with (S (fuel `min` (N - S i)))%nat by lia.
    reflexivity.
  - replace (N - i)%nat with 0%nat by lia.
    by rewrite Nat.min_0_r, app_nil_r.
Qed.

(** Started at 1 with fuel [N], the loop runs to its end. *)
Lemma assign_counters_full (N : nat) (BlockFreqs : list Z) :
  assign_counters N N BlockFreqs 1 [DefaultEntryCount]
  = DefaultEntryCount :: (counter_value BlockFreqs <$> seq 1 (N - 1)).
Proof.
  rewrite assign_counters_spec.
  by replace (N `min` (N - 1))%nat with (N - 1)%nat by lia.
Qed.

Lemma instrumented_length (N : nat) (BlockFreqs : list Z) :
  length (assign_counters N N BlockFreqs 1 [DefaultEntryCount]) = (N `max` 1)%nat.
Proof.
  rewrite assign_counters_full. simpl.
  rewrite length_fmap, length_seq. lia.
Qed.

Lemma instrumented_lookup (N : nat) (BlockFreqs : list Z) (i : nat) :
  (1 ≤ i < N)%nat →
  assign_counters N N BlockFreqs 1 [DefaultEntryCount] !! i
  = Some (counter_value BlockFreqs i).
Proof.
  intros Hi. rewrite assign_counters_full.
  destruct i as [|i]; [lia|]. simpl.
  rewrite list_lookup_fmap, lookup_seq_lt by lia. done.
Qed.

(** Unfolding of the exporter's functions, by their global names. *)
Ltac unfold_computeFunctionHash := unfold computeFunctionHash.
Ltac unfold_covrec_name := unfold covrec_name.
Ltac unfold_record_for := unfold record_for.
Ltac unfold_conversion_failed := unfold conversion_failed.
Ltac unfold_run := unfold run.
Ltac unfold_submitted := unfold submitted.
Ltac unfold_main := unfold main.
Ltac unfold_convertBFIToCounts := unfold convertBFIToCounts.
Ltac unfold_run_function := unfold run_function.
Ltac unfold_tryExtractCounterCount := unfold tryExtractCounterCount.
Ltac unfold_tryExtractCoverageHash := unfold tryExtractCoverageHash.

(** ** Frequencies to counts *)

Section Conversion.

Context (getPGOFuncName : Function → string).

Local Abbreviation tryExtractCounterCount := (tryExtractCounterCount getPGOFuncName).
Local Abbreviation convertBFIToCounts := (convertBFIToCounts getPGOFuncName).

(** The extracted counter count is a value of type [unsigned]. *)
Lemma counter_count_unsigned (M : Module) (F : Function) (N : nat) :
  tryExtractCounterCount M F = Some N → Z.of_nat N < 2 ^ 32.
Proof.
  unfold_tryExtractCounterCount. intros H.
  repeat case_match; simplify_eq.
  pose proof (wrap32_range (getZExtValue value)). lia.
Qed.

Lemma entry_block_first (F : Function) (EntryBB : BasicBlock) :
  getEntryBlock F = Some EntryBB → ∃ rest, blocks F = EntryBB :: rest.
Proof.
  unfold getEntryBlock. destruct (blocks F) as [|BB rest]; intros; simplify_eq/=.
  by exists rest.
Qed.

Lemma convert_zero_entry (M : Module) (F : Function) (BFI : BlockFrequencyInfo)
    (Counts0 : list Z) (EntryBB : BasicBlock) :
  getEntryBlock F = Some EntryBB → getBlockFreq BFI EntryBB = 0 →
  convertBFIToCounts M F BFI Counts0 = Some (false, Counts0).
Proof.
  intros HE Hz. unfold_convertBFIToCounts. rewrite HE.
  by rewrite decide_True.
Qed.

Lemma convert_instrumented (M : Module) (F : Function) (BFI : BlockFrequencyInfo)
    (Counts0 : list Z) (EntryBB : BasicBlock) (N : nat) :
  getEntryBlock F = Some EntryBB → getBlockFreq BFI EntryBB ≠ 0 →
  tryExtractCounterCount M F = Some N →
  convertBFIToCounts M F BFI Counts0
  = Some (true,
      assign_counters N N
        (sort_reversed (ScaledCount BFI (getBlockFreq BFI EntryBB) <$> blocks F))
        1 [DefaultEntryCount]).
Proof.
  intros HE Hnz HN. unfold_convertBFIToCounts.
  rewrite HE, decide_False, HN by done. simpl.
  by rewrite assign_counters_full.
Qed.

Lemma convert_plain (M : Module) (F : Function) (BFI : BlockFrequencyInfo)
    (Counts0 : list Z) (EntryBB : BasicBlock) :
  getEntryBlock F = Some EntryBB → getBlockFreq BFI EntryBB ≠ 0 →
  tryExtractCounterCount M F = None →
  convertBFIToCounts M F BFI Counts0
  = Some (true, ScaledCount BFI (getBlockFreq BFI EntryBB) <$> blocks F).
Proof.
  intros HE Hnz HN. unfold_convertBFIToCounts.
  rewrite HE, decide_False, HN by done.
  destruct (entry_block_first F EntryBB HE) as [rest ->]. done.
Qed.

(** C1, as amended.  With a counter-layout hint [N] and a nonzero entry
    frequency the conversion succeeds, the count vector has [max N 1]
    elements, that is [N] for every [N >= 1] and one for [N = 0], and its
    first element is [DefaultEntryCount]. *)
Theorem instrumented_length_and_first (M : Module) (F : Function)
    (BFI : BlockFrequencyInfo) (Counts0 : list Z) (EntryBB : BasicBlock) (N : nat) :
  getEntryBlock F = Some EntryBB → getBlockFreq BFI EntryBB ≠ 0 →
  tryExtractCounterCount M F = Some N →
  ∃ Counts, convertBFIToCounts M F BFI Counts0 = Some (true, Counts)
    ∧ length Counts = (N `max` 1)%nat
    ∧ Counts !! 0%nat = Some DefaultEntryCount.
Proof.
  intros HE Hnz HN. eexists. split; [by eapply convert_instrumented|].
  split; [apply instrumented_length|].
  by rewrite assign_counters_full.
Qed.

(** C2, as amended.  Without a hint and with a nonzero entry frequency the
    count vector has one element per block, in declaration order; element
    [i] is the product of [DefaultEntryCount] and the frequency of block
    [i], reduced modulo [2^64], divided by the entry frequency, which is
    [floor (DefaultEntryCount * freq / entryFreq)] whenever the product
    fits 64 bits. *)
Theorem plain_counts_per_block (M : Module) (F : Function)
    (BFI : BlockFrequencyInfo) (Counts0 : list Z) (EntryBB : BasicBlock) :
  getEntryBlock F = Some EntryBB → getBlockFreq BFI EntryBB ≠ 0 →
  tryExtractCounterCount M F = None →
  ∃ Counts, convertBFIToCounts M F BFI Counts0 = Some (true, Counts)
    ∧ length Counts = length (blocks F)
    ∧ ∀ (i : nat) (BB : BasicBlock), blocks F !! i = Some BB →
        Counts !! i
        = Some (wrap64 (DefaultEntryCount * getBlockFreq BFI BB)
                / getBlockFreq BFI EntryBB)
        ∧ (0 ≤ getBlockFreq BFI BB →
           DefaultEntryCount * getBlockFreq BFI BB < 2 ^ 64 →
           Counts !! i
           = Some (DefaultEntryCount * getBlockFreq BFI BB
                   / getBlockFreq BFI EntryBB)).
Proof.
  intros HE Hnz HN. eexists. split; [by eapply convert_plain|].
  split; [by rewrite length_fmap|].
  intros i BB Hi. rewrite list_lookup_fmap, Hi. simpl.
  split; [done|]. intros Hpos Hfit. unfold ScaledCount.
  rewrite wrap64_small; [done|]. unfold DefaultEntryCount in *. lia.
Qed.

(** C3, as amended.  Two blocks of frequencies 10 (the entry) and 5 with a
    hint of three counters give [[100; 50; 33]]: the pinned entry count,
    the second element of the descending list [[100; 50]], and the padding
    value [100 / 3]. *)
Theorem scenario_two_blocks_three_counters (M : Module) (F : Function)
    (BFI : BlockFrequencyInfo) (Counts0 : list Z) (EntryBB BB2 : BasicBlock) :
  blocks F = [EntryBB; BB2] →
  getBlockFreq BFI EntryBB = 10 → getBlockFreq BFI BB2 = 5 →
  tryExtractCounterCount M F = Some 3%nat →
  convertBFIToCounts M F BFI Counts0 = Some (true, [100; 50; 33]).
Proof.
  intros HB H10 H5 HN.
  rewrite (convert_instrumented M F BFI Counts0 EntryBB 3); try done.
  - rewrite HB. simpl. unfold ScaledCount. rewrite H10, H5. reflexivity.
  - unfold getEntryBlock. by rewrite HB.
  - by rewrite H10.
Qed.

(** C4, as amended.  With a hint [N] no larger than the number of blocks
    and a nonzero entry frequency, every slot [1 <= i < N] of the count
    vector holds element [i] of the descending arrangement of the per-block
    values [((100 * freq) mod 2^64) / entryFreq], and the slots from 1 on
    are in descending order.  When [100 * freq] fits 64 bits for every
    block, these values are the scaled frequencies
    [floor (100 * freq / entryFreq)]. *)
Theorem instrumented_slots_from_sorted (M : Module) (F : Function)
    (BFI : BlockFrequencyInfo) (Counts0 : list Z) (EntryBB : BasicBlock) (N : nat) :
  getEntryBlock F = Some EntryBB → getBlockFreq BFI EntryBB ≠ 0 →
  tryExtractCounterCount M F = Some N →
  (N ≤ length (blocks F))%nat →
  ∃ Counts sorted,
    convertBFIToCounts M F BFI Counts0 = Some (true, Counts)
    ∧ Sorted (flip Z.le) sorted
    ∧ sorted ≡ₚ ((λ BB, (100 * getBlockFreq BFI BB) mod 2 ^ 64
                          / getBlockFreq BFI EntryBB) <$> blocks F)
    ∧ ((∀ BB, BB ∈ blocks F →
          0 ≤ getBlockFreq BFI BB ∧ 100 * getBlockFreq BFI BB < 2 ^ 64) →
       sorted ≡ₚ ((λ BB, 100 * getBlockFreq BFI BB / getBlockFreq BFI EntryBB)
                    <$> blocks F))
    ∧ (∀ i : nat, (1 ≤ i < N)%nat →
         ∃ v, Counts !! i = Some v ∧ sorted !! i = Some v ∧ v ∈ sorted)
    ∧ (∀ (i j : nat) (v w : Z), (1 ≤ i ≤ j)%nat → (j < N)%nat →
         Counts !! i = Some v → Counts !! j = Some w → w ≤ v).
Proof.
  intros HE Hnz HN Hle.
  set (scaled := ScaledCount BFI (getBlockFreq BFI EntryBB) <$> blocks F).
  assert (Hslot : ∀ i : nat, (1 ≤ i < N)%nat →
    ∃ v, assign_counters N N (sort_reversed scaled) 1 [DefaultEntryCount] !! i
           = Some v ∧ sort_reversed scaled !! i = Some v).
  { intros i Hi. rewrite instrumented_lookup by done.
    assert (Hlen : (i < length (sort_reversed scaled))%nat).
    { rewrite sort_reversed_length. unfold scaled. rewrite length_fmap. lia. }
    destruct (lookup_lt_is_Some_2 _ _ Hlen) as [v Hv].
    exists v. unfold counter_value. by rewrite decide_True, Hv. }
  exists (assign_counters N N (sort_reversed scaled) 1 [DefaultEntryCount]),
         (sort_reversed scaled).
  split; [by eapply convert_instrumented|].
  split; [apply sort_reversed_Sorted|].
  split; [apply sort_reversed_Permutation|].
  split.
  { intros Hfit. rewrite sort_reversed_Permutation. unfold scaled.
    erewrite (list_fmap_ext _ _ (blocks F)); [done|].
    intros k BB Hk. unfold ScaledCount, DefaultEntryCount.
    destruct (Hfit BB) as [Hpos Hlt]; [by eapply list_elem_of_lookup_2|].
    by rewrite wrap64_small by lia. }
  split.
  - intros i Hi. destruct (Hslot i Hi) as (v & Hc & Hs).
    exists v. eauto using list_elem_of_lookup_2.
  - intros i j v w Hij Hj Hv Hw.
    destruct (Hslot i) as (v' & Hc & Hs); [lia|].
    destruct (Hslot j) as (w' & Hc' & Hs'); [lia|].
    simplify_eq.
    eapply (descending_lookup (sort_reversed scaled) i j);
      eauto using sort_reversed_Sorted with lia.
Qed.

(** C5, as amended.  With a hint [N] larger than the number of blocks and
    a nonzero entry frequency, every slot [i] with [len(blocks) <= i < N]
    holds [DefaultEntryCount / (i + 1)], and these padding values never
    increase as [i] grows. *)
Theorem instrumented_padding (M : Module) (F : Function)
    (BFI : BlockFrequencyInfo) (Counts0 : list Z) (EntryBB : BasicBlock) (N : nat) :
  getEntryBlock F = Some EntryBB → getBlockFreq BFI EntryBB ≠ 0 →
  tryExtractCounterCount M F = Some N →
  (length (blocks F) < N)%nat →
  ∃ Counts, convertBFIToCounts M F BFI Counts0 = Some (true, Counts)
    ∧ (∀ i : nat, (length (blocks F) ≤ i < N)%nat →
         Counts !! i = Some (DefaultEntryCount / (Z.of_nat i + 1)))
    ∧ (∀ (i j : nat) (v w : Z), (length (blocks F) ≤ i ≤ j)%nat → (j < N)%nat →
         Counts !! i = Some v → Counts !! j = Some w → w ≤ v).
Proof.
  intros HE Hnz HN Hlt.
  pose proof (counter_count_unsigned M F N HN) as HN32.
  destruct (entry_block_first F EntryBB HE) as [rest Hrest].
  assert (Hlen : (1 ≤ length (blocks F))%nat) by (rewrite Hrest; simpl; lia).
  set (sorted := sort_reversed (ScaledCount BFI (getBlockFreq BFI EntryBB) <$> blocks F)).
  assert (Hpad : ∀ i : nat, (length (blocks F) ≤ i < N)%nat →
    assign_counters N N sorted 1 [DefaultEntryCount] !! i
    = Some (DefaultEntryCount / (Z.of_nat i + 1))).
  { intros i Hi. rewrite instrumented_lookup by lia.
    unfold counter_value. rewrite decide_False.
    - by rewrite wrap32_small by lia.
    - unfold sorted. rewrite sort_reversed_length, length_fmap. lia. }
  eexists. split; [by eapply convert_instrumented|]. split; [done|].
  intros i j v w Hij Hj Hv Hw.
  rewrite Hpad in Hv by lia. rewrite Hpad in Hw by lia. simplify_eq.
  apply padding_antitone. lia.
Qed.

(** C9, as amended.  With a nonzero entry frequency the conversion
    succeeds and the first count is [DefaultEntryCount] whenever a hint is
    present, and also without a hint provided
    [DefaultEntryCount * entryFreq] fits 64 bits. *)
Theorem first_count_is_entry_count (M : Module) (F : Function)
    (BFI : BlockFrequencyInfo) (Counts0 : list Z) (EntryBB : BasicBlock) :
  getEntryBlock F = Some EntryBB → getBlockFreq BFI EntryBB ≠ 0 →
  ∃ Counts, convertBFIToCounts M F BFI Counts0 = Some (true, Counts)
    ∧ (is_Some (tryExtractCounterCount M F) →
         Counts !! 0%nat = Some DefaultEntryCount)
    ∧ (0 ≤ getBlockFreq BFI EntryBB →
       DefaultEntryCount * getBlockFreq BFI EntryBB < 2 ^ 64 →
         Counts !! 0%nat = Some DefaultEntryCount).
Proof.
  intros HE Hnz.
  destruct (tryExtractCounterCount M F) as [N|] eqn:HN.
  - eexists. split; [by eapply convert_instrumented|].
    rewrite assign_counters_full. done.
  - eexists. split; [by eapply convert_plain|].
    split; [by intros [? ?]|]. intros Hpos Hfit.
    destruct (entry_block_first F EntryBB HE) as [rest ->]. simpl.
    f_equal. unfold ScaledCount.
    rewrite wrap64_small by (unfold DefaultEntryCount in *; lia).
    apply Z.div_mul. done.
Qed.

(** C10.  For a function with a body and a nonzero entry frequency the
    conversion returns [true] with a vector that is not empty. *)
Theorem conversion_never_empty (M : Module) (F : Function)
    (BFI : BlockFrequencyInfo) (Counts0 : list Z) :
  isDeclaration F = false →
  (∀ EntryBB, getEntryBlock F = Some EntryBB → getBlockFreq BFI EntryBB ≠ 0) →
  ∃ Counts, convertBFIToCounts M F BFI Counts0 = Some (true, Counts)
    ∧ Counts ≠ [].
Proof.
  intros Hbody Hnz.
  assert (∃ EntryBB, getEntryBlock F = Some EntryBB) as [EntryBB HE].
  { unfold isDeclaration, getEntryBlock in *.
    destruct (blocks F) as [|BB ?]; [done|]. by exists BB. }
  specialize (Hnz EntryBB HE).
  destruct (tryExtractCounterCount M F) as [N|] eqn:HN.
  - eexists. split; [by eapply convert_instrumented|].
    by rewrite assign_counters_full.
  - eexists. split; [by eapply convert_plain|].
    destruct (entry_block_first F EntryBB HE) as [rest ->]. done.
Qed.

End Conversion.

(** ** Function identity *)

Section Identity.

Context (getPGOFuncName : Function → string) (ComputeHash : string → Z).

Local Abbreviation tryExtractCoverageHash :=
  (tryExtractCoverageHash getPGOFuncName ComputeHash).
Local Abbreviation computeFunctionHash :=
  (computeFunctionHash getPGOFuncName ComputeHash).
Local Abbreviation covrec_name := (covrec_name getPGOFuncName ComputeHash).

(** A coverage record whose initializer is a struct with an integer third
    field yields that field. *)
Lemma coverage_hash_of_record (M : Module) (F : Function)
    (f0 f1 : Constant) (v : Z) (rest : list Constant) :
  getNamedGlobal M (covrec_name F)
  = Some (mkGlobal (Some (ConstantStruct (f0 :: f1 :: ConstantInt v :: rest)))) →
  tryExtractCoverageHash M F = Some (getZExtValue v).
Proof.
  intros HG. unfold_tryExtractCoverageHash. rewrite HG.
  cbn [getInitializer]. rewrite decide_True by (simpl; lia). done.
Qed.

(** C8.  When the coverage-metadata lookup yields a structural hash,
    [computeFunctionHash] returns it; when the lookup yields nothing, it
    returns the hash of the PGO name; in particular the third field of a
    well-formed coverage record is the hash of the function. *)
Theorem structural_hash_preferred (M : Module) (F : Function) :
  (∀ h, tryExtractCoverageHash M F = Some h → computeFunctionHash M F = h)
  ∧ (tryExtractCoverageHash M F = None →
       computeFunctionHash M F = ComputeHash (getPGOFuncName F))
  ∧ (∀ f0 f1 v rest,
       getNamedGlobal M (covrec_name F)
       = Some (mkGlobal (Some (ConstantStruct (f0 :: f1 :: ConstantInt v :: rest)))) →
       computeFunctionHash M F = getZExtValue v).
Proof.
  unfold_computeFunctionHash. split; [|split].
  - by intros h ->.
  - by intros ->.
  - intros f0 f1 v rest HG.
    by rewrite (coverage_hash_of_record M F f0 f1 v rest HG).
Qed.

End Identity.

(** ** The pass *)

Section Pass.

Context (getPGOFuncName getIRPGOFuncName : Function → string).
Context (ComputeHash : string → Z).
Context {InstrProfWriter Error : Type}.
Context (addRecord :
  InstrProfWriter → NamedInstrProfRecord → Z → InstrProfWriter * list Error).
Context (BlockFrequencyAnalysis : Function → BlockFrequencyInfo).

Local Abbreviation convertBFIToCounts := (convertBFIToCounts getPGOFuncName).
Local Abbreviation computeFunctionHash :=
  (computeFunctionHash getPGOFuncName ComputeHash).
Local Abbreviation run_function :=
  (run_function getPGOFuncName getIRPGOFuncName ComputeHash addRecord
     BlockFrequencyAnalysis).
Local Abbreviation run_loop :=
  (run_loop getPGOFuncName getIRPGOFuncName ComputeHash addRecord
     BlockFrequencyAnalysis).

Lemma incr_no_wrap (n : Z) : 0 ≤ n < 2 ^ 32 - 1 → incr n = n + 1.
Proof. intros Hn. unfold incr. apply wrap32_small. lia. Qed.

(** The conversion is defined on every function with a body. *)
Lemma convert_defined (M : Module) (F : Function) (BFI : BlockFrequencyInfo)
    (Counts0 : list Z) :
  isDeclaration F = false → is_Some (convertBFIToCounts M F BFI Counts0).
Proof.
  unfold_convertBFIToCounts. unfold isDeclaration, getEntryBlock.
  destruct (blocks F) as [|BB ?]; [done|]. intros _. simpl.
  case_decide; eauto.
Qed.

(** One iteration never reaches the undefined case. *)
Lemma run_function_total (M : Module) (st : ExportState InstrProfWriter)
    (F : Function) :
  is_Some (run_function M st F).
Proof.
  unfold_run_function.
  destruct (isDeclaration F) eqn:HD; [eauto|].
  destruct (convert_defined M F (BlockFrequencyAnalysis F) [] HD) as [[ok Counts] ->].
  destruct ok; [|eauto]. destruct (addRecord _ _ _). eauto.
Qed.

(** The loop visits every function and ends. *)
Lemma run_loop_total (M : Module) (Fs : list Function)
    (st : ExportState InstrProfWriter) :
  is_Some (run_loop M Fs st).
Proof.
  revert st. induction Fs as [|F Fs IH]; intros st; simpl; [eauto|].
  destruct (run_function_total M st F) as [st' ->]. apply IH.
Qed.

(** When [addRecord] reports errors, the iteration advances both tallies:
    [FunctionsSkipped] once per error and [FunctionsProcessed] once. *)
Lemma run_function_rejected (M : Module) (st : ExportState InstrProfWriter)
    (F : Function) (Counts : list Z) (Writer' : InstrProfWriter)
    (Errs : list Error) :
  isDeclaration F = false →
  convertBFIToCounts M F (BlockFrequencyAnalysis F) [] = Some (true, Counts) →
  addRecord (Writer st)
    (mkRecord (getIRPGOFuncName F) (computeFunctionHash M F) Counts) 1
  = (Writer', Errs) →
  run_function M st F
  = Some (mkState Writer' (incr (FunctionsProcessed st))
            (warn_all Errs (FunctionsSkipped st))).
Proof.
  intros HD HC HA. unfold_run_function. by rewrite HD, HC, HA.
Qed.

End Pass.

(** ** Scenarios *)

Lemma freq_hot_loop_valid : valid_BFI freq_hot_loop.
Proof. intros [|BB]; simpl; lia. Qed.

Lemma freq_huge_valid : valid_BFI freq_huge.
Proof. intros BB. unfold freq_huge. lia. Qed.

(** Three counters announced for two blocks. *)
Lemma instrumented_length_and_first_witness :
  ∃ Counts,
    convertBFIToCounts external_name (module_hint two_blocks 3) two_blocks
      freq_10_5 [] = Some (true, Counts)
    ∧ length Counts = 3%nat
    ∧ Counts !! 0%nat = Some 100.
Proof.
  apply (instrumented_length_and_first external_name
           (module_hint two_blocks 3) two_blocks freq_10_5 [] 0%nat 3%nat).
  - reflexivity.
  - vm_compute. discriminate.
  - vm_compute. reflexivity.
Defined.

(** A hint of zero counters still yields one count: the length is not the
    hint. *)
Lemma hint_zero_one_count :
  ∃ (N : nat) (Counts : list Z),
    getEntryBlock one_block = Some 0%nat
    ∧ getBlockFreq freq_10_5 0%nat ≠ 0
    ∧ tryExtractCounterCount external_name (module_hint one_block 0) one_block
      = Some N
    ∧ convertBFIToCounts external_name (module_hint one_block 0) one_block
        freq_10_5 [] = Some (true, Counts)
    ∧ length Counts ≠ N.
Proof.
  exists 0%nat, [100]. repeat split; try (vm_compute; reflexivity).
  - vm_compute. discriminate.
  - simpl. lia.
Qed.

Lemma plain_counts_per_block_witness :
  ∃ Counts,
    convertBFIToCounts external_name (module_plain [two_blocks]) two_blocks
      freq_10_5 [] = Some (true, Counts)
    ∧ length Counts = 2%nat
    ∧ ∀ (i : nat) (BB : BasicBlock), blocks two_blocks !! i = Some BB →
        Counts !! i
        = Some (wrap64 (DefaultEntryCount * getBlockFreq freq_10_5 BB)
                / getBlockFreq freq_10_5 0%nat)
        ∧ (0 ≤ getBlockFreq freq_10_5 BB →
           DefaultEntryCount * getBlockFreq freq_10_5 BB < 2 ^ 64 →
           Counts !! i
           = Some (DefaultEntryCount * getBlockFreq freq_10_5 BB
                   / getBlockFreq freq_10_5 0%nat)).
Proof.
  apply (plain_counts_per_block external_name
           (module_plain [two_blocks]) two_blocks freq_10_5 [] 0%nat).
  - reflexivity.
  - vm_compute. discriminate.
  - vm_compute. reflexivity.
Defined.

(** A loop block of frequency [2^60] under an entry of frequency 1024: the
    product with 100 overflows and the count is [2^52], not
    [floor (100 * 2^60 / 1024)]. *)
Lemma plain_count_overflows :
  valid_BFI freq_hot_loop
  ∧ getEntryBlock two_blocks = Some 0%nat
  ∧ getBlockFreq freq_hot_loop 0%nat ≠ 0
  ∧ tryExtractCounterCount external_name (module_plain [two_blocks]) two_blocks
    = None
  ∧ blocks two_blocks !! 1%nat = Some 1%nat
  ∧ ∃ Counts,
      convertBFIToCounts external_name (module_plain [two_blocks]) two_blocks
        freq_hot_loop [] = Some (true, Counts)
      ∧ Counts !! 1%nat = Some (2 ^ 52)
      ∧ Counts !! 1%nat
        ≠ Some (DefaultEntryCount * getBlockFreq freq_hot_loop 1%nat
                / getBlockFreq freq_hot_loop 0%nat).
Proof.
  split; [apply freq_hot_loop_valid|].
  split; [reflexivity|]. split; [vm_compute; discriminate|].
  split; [vm_compute; reflexivity|]. split; [reflexivity|].
  exists [100; 2 ^ 52]. split; [vm_compute; reflexivity|].
  split; [reflexivity|]. vm_compute. discriminate.
Qed.

Lemma scenario_two_blocks_three_counters_witness :
  convertBFIToCounts external_name (module_hint two_blocks 3) two_blocks
    freq_10_5 [] = Some (true, [100; 50; 33]).
Proof.
  apply (scenario_two_blocks_three_counters external_name
           (module_hint two_blocks 3) two_blocks freq_10_5 [] 0%nat 1%nat).
  - reflexivity.
  - reflexivity.
  - reflexivity.
  - vm_compute. reflexivity.
Defined.

(** The same input does not give [[100; 100; 50]]. *)
Lemma scenario_two_blocks_not_100_100_50 :
  blocks two_blocks = [0%nat; 1%nat]
  ∧ getBlockFreq freq_10_5 0%nat = 10 ∧ getBlockFreq freq_10_5 1%nat = 5
  ∧ tryExtractCounterCount external_name (module_hint two_blocks 3) two_blocks
    = Some 3%nat
  ∧ convertBFIToCounts external_name (module_hint two_blocks 3) two_blocks
      freq_10_5 [] ≠ Some (true, [100; 100; 50]).
Proof.
  repeat split; try (vm_compute; reflexivity).
  vm_compute. discriminate.
Qed.

(** Three blocks scaled to 100, 50 and 200 with three counters: the slots
    after the first are elements 1 and 2 of [[200; 100; 50]]. *)
Lemma instrumented_slots_from_sorted_witness :
  ∃ Counts sorted,
    convertBFIToCounts external_name (module_hint three_blocks 3) three_blocks
      freq_10_5_20 [] = Some (true, Counts)
    ∧ Sorted (flip Z.le) sorted
    ∧ sorted ≡ₚ ((λ BB, (100 * getBlockFreq freq_10_5_20 BB) mod 2 ^ 64
                          / getBlockFreq freq_10_5_20 0%nat)
                   <$> blocks three_blocks)
    ∧ ((∀ BB, BB ∈ blocks three_blocks →
          0 ≤ getBlockFreq freq_10_5_20 BB
          ∧ 100 * getBlockFreq freq_10_5_20 BB < 2 ^ 64) →
       sorted ≡ₚ ((λ BB, 100 * getBlockFreq freq_10_5_20 BB
                           / getBlockFreq freq_10_5_20 0%nat)
                    <$> blocks three_blocks))
    ∧ (∀ i : nat, (1 ≤ i < 3)%nat →
         ∃ v, Counts !! i = Some v ∧ sorted !! i = Some v ∧ v ∈ sorted)
    ∧ (∀ (i j : nat) (v w : Z), (1 ≤ i ≤ j)%nat → (j < 3)%nat →
         Counts !! i = Some v → Counts !! j = Some w → w ≤ v).
Proof.
  apply (instrumented_slots_from_sorted external_name
           (module_hint three_blocks 3) three_blocks freq_10_5_20 [] 0%nat 3%nat).
  - reflexivity.
  - vm_compute. discriminate.
  - vm_compute. reflexivity.
  - simpl. lia.
Defined.

Lemma freq_hot_loops_valid : valid_BFI freq_hot_loops.
Proof. intros [|[|BB]]; simpl; lia. Qed.

(** An entry of frequency 1024 and blocks of frequencies [2^60] and [2^61]
    with three counters: slot 1 holds [2^52], which is none of the scaled
    frequencies [floor (100 * freq / 1024)] of the three blocks. *)
Lemma instrumented_slot_not_scaled :
  valid_BFI freq_hot_loops
  ∧ getEntryBlock three_blocks = Some 0%nat
  ∧ getBlockFreq freq_hot_loops 0%nat ≠ 0
  ∧ tryExtractCounterCount external_name (module_hint three_blocks 3) three_blocks
    = Some 3%nat
  ∧ (3 ≤ length (blocks three_blocks))%nat
  ∧ ∃ Counts,
      convertBFIToCounts external_name (module_hint three_blocks 3) three_blocks
        freq_hot_loops [] = Some (true, Counts)
      ∧ Counts = [100; 2 ^ 52; 100]
      ∧ Counts !! 1%nat = Some (2 ^ 52)
      ∧ 2 ^ 52 ∉ ((λ BB, 100 * getBlockFreq freq_hot_loops BB
                          / getBlockFreq freq_hot_loops 0%nat)
                    <$> blocks three_blocks).
Proof.
  split; [apply freq_hot_loops_valid|].
  split; [reflexivity|]. split; [vm_compute; discriminate|].
  split; [vm_compute; reflexivity|]. split; [simpl; lia|].
  exists [100; 2 ^ 52; 100]. split; [vm_compute; reflexivity|].
  split; [reflexivity|]. split; [reflexivity|].
  simpl. rewrite !not_elem_of_cons.
  repeat split; try (vm_compute; discriminate). apply not_elem_of_nil.
Qed.

Lemma instrumented_padding_witness :
  ∃ Counts,
    convertBFIToCounts external_name (module_hint one_block 14) one_block
      freq_10_5 [] = Some (true, Counts)
    ∧ (∀ i : nat, (length (blocks one_block) ≤ i < 14)%nat →
         Counts !! i = Some (DefaultEntryCount / (Z.of_nat i + 1)))
    ∧ (∀ (i j : nat) (v w : Z),
         (length (blocks one_block) ≤ i ≤ j)%nat → (j < 14)%nat →
         Counts !! i = Some v → Counts !! j = Some w → w ≤ v).
Proof.
  apply (instrumented_padding external_name
           (module_hint one_block 14) one_block freq_10_5 [] 0%nat 14%nat).
  - reflexivity.
  - vm_compute. discriminate.
  - vm_compute. reflexivity.
  - simpl. lia.
Defined.

(** One block and fourteen counters: slots 12 and 13 are padding and both
    hold 7, so the padding is not strictly decreasing. *)
Lemma padding_repeats :
  getEntryBlock one_block = Some 0%nat
  ∧ getBlockFreq freq_10_5 0%nat ≠ 0
  ∧ tryExtractCounterCount external_name (module_hint one_block 14) one_block
    = Some 14%nat
  ∧ (length (blocks one_block) ≤ 12)%nat
  ∧ ∃ Counts,
      convertBFIToCounts external_name (module_hint one_block 14) one_block
        freq_10_5 [] = Some (true, Counts)
      ∧ Counts !! 12%nat = Some 7 ∧ Counts !! 13%nat = Some 7
      ∧ ¬ (∀ v w, Counts !! 12%nat = Some v → Counts !! 13%nat = Some w → w < v).
Proof.
  split; [reflexivity|]. split; [vm_compute; discriminate|].
  split; [vm_compute; reflexivity|]. split; [simpl; lia|].
  eexists. split; [vm_compute; reflexivity|].
  split; [reflexivity|]. split; [reflexivity|].
  intros H. specialize (H 7 7 eq_refl eq_refl). lia.
Qed.

(** C7, on the code.  A module defines ["g"] with one block and
    ["\001g"] with two; both have the profile name ["g"] and the same hash.
    The writer stores the first record and rejects the second through the
    warning callback (count mismatch); the run ends with one stored record,
    [FunctionsSkipped = 1] and [FunctionsProcessed = 2]: the rejected
    function is counted as skipped and as processed. *)
Theorem rejected_record_counted_twice :
  list_addRecord [mkRecord "g" 1 [100]] (mkRecord "g" 1 [100; 50]) 1
  = ([mkRecord "g" 1 [100]], [count_mismatch])
  ∧ run external_name external_name length_hash list_addRecord
      (λ _, freq_10_5) "out.profdata" []
      (module_plain [one_block; escaped_two_blocks])
    = Some (WriteProfile "out.profdata"
              (mkState [mkRecord "g" 1 [100]] 2 1)).
Proof. split; vm_compute; reflexivity. Qed.

(** A coverage record with structural hash [0xBEEF] for ["g"], whose name
    hash is 1. *)
Lemma structural_hash_preferred_witness :
  computeFunctionHash external_name length_hash
    (module_covrec one_block 48879) one_block = 48879.
Proof.
  apply (proj1 (structural_hash_preferred external_name length_hash
                  (module_covrec one_block 48879) one_block) 48879).
  vm_compute. reflexivity.
Defined.

Lemma first_count_is_entry_count_witness :
  ∃ Counts,
    convertBFIToCounts external_name (module_plain [two_blocks]) two_blocks
      freq_10_5 [] = Some (true, Counts)
    ∧ (is_Some (tryExtractCounterCount external_name
                  (module_plain [two_blocks]) two_blocks) →
         Counts !! 0%nat = Some DefaultEntryCount)
    ∧ (0 ≤ getBlockFreq freq_10_5 0%nat →
       DefaultEntryCount * getBlockFreq freq_10_5 0%nat < 2 ^ 64 →
         Counts !! 0%nat = Some DefaultEntryCount).
Proof.
  apply (first_count_is_entry_count external_name
           (module_plain [two_blocks]) two_blocks freq_10_5 [] 0%nat).
  - reflexivity.
  - vm_compute. discriminate.
Defined.

(** An entry frequency of [2^63] without a hint: [100 * 2^63] wraps to 0
    and the first count is 0. *)
Lemma plain_first_count_overflows :
  valid_BFI freq_huge
  ∧ getEntryBlock two_blocks = Some 0%nat
  ∧ getBlockFreq freq_huge 0%nat ≠ 0
  ∧ tryExtractCounterCount external_name (module_plain [two_blocks]) two_blocks
    = None
  ∧ ∃ Counts,
      convertBFIToCounts external_name (module_plain [two_blocks]) two_blocks
        freq_huge [] = Some (true, Counts)
      ∧ Counts !! 0%nat = Some 0
      ∧ Counts !! 0%nat ≠ Some DefaultEntryCount.
Proof.
  split; [apply freq_huge_valid|].
  split; [reflexivity|]. split; [vm_compute; discriminate|].
  split; [vm_compute; reflexivity|].
  exists [0; 0]. split; [vm_compute; reflexivity|].
  split; [reflexivity|]. vm_compute. discriminate.
Qed.

Lemma conversion_never_empty_witness :
  ∃ Counts,
    convertBFIToCounts external_name (module_hint one_block 0) one_block
      freq_10_5 [] = Some (true, Counts)
    ∧ Counts ≠ [].
Proof.
  apply (conversion_never_empty external_name
           (module_hint one_block 0) one_block freq_10_5 []).
  - reflexivity.
  - intros EntryBB HE. vm_compute in HE. injection HE as <-.
    vm_compute. discriminate.
Defined.

(** * Further properties of the exporter *)

(** ** More on frequencies to counts *)

Section ConversionMore.

Context (getPGOFuncName : Function → string).

Local Abbreviation tryExtractCounterCount := (tryExtractCounterCount getPGOFuncName).
Local Abbreviation convertBFIToCounts := (convertBFIToCounts getPGOFuncName).

(** X1.  [Counts.clear()] comes after the test of the entry frequency: with
    a nonzero entry frequency the result does not depend on what the vector
    held at the call, and with entry frequency 0 the vector is handed back
    as it was. *)
Theorem conversion_clears_after_entry_test (M : Module) (F : Function)
    (BFI : BlockFrequencyInfo) (Counts0 : list Z) (EntryBB : BasicBlock) :
  getEntryBlock F = Some EntryBB →
  (getBlockFreq BFI EntryBB ≠ 0 →
     convertBFIToCounts M F BFI Counts0 = convertBFIToCounts M F BFI [])
  ∧ (getBlockFreq BFI EntryBB = 0 →
       convertBFIToCounts M F BFI Counts0 = Some (false, Counts0)).
Proof.
  intros HE. split.
  - intros Hnz. unfold_convertBFIToCounts. rewrite HE.
    case_decide; [done | reflexivity].
  - intros Hz. by eapply convert_zero_entry.
Qed.

(** The part of the instrumented vector after the pinned entry count. *)
Lemma counter_values_closed_form (sorted : list Z) (N : nat) :
  (1 ≤ length sorted)%nat → Z.of_nat N < 2 ^ 32 →
  counter_value sorted <$> seq 1 (N - 1)
  = take (N - 1) (tail sorted)
    ++ ((λ i : nat, DefaultEntryCount / (Z.of_nat i + 1))
          <$> seq (length sorted) (N - length sorted)).
Proof.
  intros HL HN. apply list_eq. intros k.
  rewrite list_lookup_fmap.
  destruct (decide (k < N - 1)%nat) as [Hk|Hk].
  - rewrite lookup_seq_lt by done. simpl. unfold counter_value.
    destruct (decide (S k < length sorted)%nat) as [Hin|Hout].
    + rewrite lookup_app_l by (rewrite length_take, length_tl; lia).
      rewrite lookup_take_lt by done.
      destruct sorted as [|x sorted]; [simpl in *; lia|]. simpl.
      destruct (lookup_lt_is_Some_2 sorted k) as [v Hv]; [simpl in *; lia|].
      by rewrite Hv.
    + rewrite lookup_app_r by (rewrite length_take, length_tl; lia).
      rewrite length_take, length_tl.
      rewrite list_lookup_fmap, lookup_seq_lt by lia. simpl.
      rewrite wrap32_small by lia. do 2 f_equal. lia.
  - rewrite lookup_seq_ge by lia. simpl. symmetry.
    apply lookup_ge_None.
    rewrite length_app, length_take, length_tl, length_fmap, length_seq. lia.
Qed.

(** X2.  The whole instrumented vector: the entry count, then the elements
    of the descending list from its second one on (its greatest element is
    never used), cut at [N - 1], then the padding [100 / (i + 1)] for the
    slots from the block count up to [N]. *)
Theorem instrumented_counts_closed_form (M : Module) (F : Function)
    (BFI : BlockFrequencyInfo) (Counts0 : list Z) (EntryBB : BasicBlock) (N : nat) :
  getEntryBlock F = Some EntryBB → getBlockFreq BFI EntryBB ≠ 0 →
  tryExtractCounterCount M F = Some N →
  convertBFIToCounts M F BFI Counts0
  = Some (true,
      DefaultEntryCount
      :: take (N - 1)
           (tail (sort_reversed
                    (ScaledCount BFI (getBlockFreq BFI EntryBB) <$> blocks F)))
      ++ ((λ i : nat, DefaultEntryCount / (Z.of_nat i + 1))
            <$> seq (length (blocks F)) (N - length (blocks F)))).
Proof.
  intros HE Hnz HN.
  rewrite (convert_instrumented _ M F BFI Counts0 EntryBB N HE Hnz HN).
  rewrite assign_counters_full.
  destruct (entry_block_first F EntryBB HE) as [rest Hrest].
  rewrite counter_values_closed_form.
  - by rewrite sort_reversed_length, length_fmap.
  - rewrite sort_reversed_length, length_fmap, Hrest. simpl. lia.
  - by eapply counter_count_unsigned.
Qed.

(** X3.  On the instrumented path the order of the blocks does not matter:
    two functions with the same entry block, the same blocks in any order
    and the same hint get the same counts. *)
Theorem instrumented_counts_order_independent (M : Module) (F F' : Function)
    (BFI : BlockFrequencyInfo) (Counts0 Counts0' : list Z)
    (EntryBB : BasicBlock) (N : nat) :
  getEntryBlock F = Some EntryBB → getEntryBlock F' = Some EntryBB →
  blocks F ≡ₚ blocks F' →
  getBlockFreq BFI EntryBB ≠ 0 →
  tryExtractCounterCount M F = Some N → tryExtractCounterCount M F' = Some N →
  convertBFIToCounts M F BFI Counts0 = convertBFIToCounts M F' BFI Counts0'.
Proof.
  intros HE HE' Hperm Hnz HN HN'.
  rewrite (convert_instrumented _ M F BFI Counts0 EntryBB N HE Hnz HN).
  rewrite (convert_instrumented _ M F' BFI Counts0' EntryBB N HE' Hnz HN').
  do 3 f_equal.
  apply sort_reversed_unique; [apply sort_reversed_Sorted|].
  rewrite sort_reversed_Permutation. by apply fmap_Permutation.
Qed.

Lemma ScaledCount_range (BFI : BlockFrequencyInfo) (EntryFreq : Z) (BB : BasicBlock) :
  0 < EntryFreq → 0 ≤ ScaledCount BFI EntryFreq BB < 2 ^ 64.
Proof.
  intros He. unfold ScaledCount.
  assert (0 ≤ wrap64 (DefaultEntryCount * getBlockFreq BFI BB) < 2 ^ 64) as Hw.
  { unfold wrap64. apply Z.mod_pos_bound. lia. }
  split; [apply Z.div_pos; lia|].
  apply Z.div_lt_upper_bound; [done|]. nia.
Qed.

Lemma padding_range (k : Z) : 0 ≤ k → 0 ≤ DefaultEntryCount / k ≤ DefaultEntryCount.
Proof.
  intros Hk. unfold DefaultEntryCount.
  destruct (decide (k = 0)) as [->|Hne]; [rewrite Z.div_0_r; lia|].
  split; [apply Z.div_pos; lia|].
  apply Z.div_le_upper_bound; nia.
Qed.

Lemma counter_value_range (sorted : list Z) (i : nat) :
  (∀ v, v ∈ sorted → 0 ≤ v < 2 ^ 64) → 0 ≤ counter_value sorted i < 2 ^ 64.
Proof.
  intros Hall. unfold counter_value. case_decide as Hi.
  - destruct (lookup_lt_is_Some_2 sorted i Hi) as [v Hv]. rewrite Hv. simpl.
    eauto using list_elem_of_lookup_2.
  - pose proof (wrap32_range (Z.of_nat i + 1)).
    pose proof (padding_range (wrap32 (Z.of_nat i + 1))).
    unfold DefaultEntryCount in *. lia.
Qed.

(** X4.  When the frequencies are 64-bit unsigned and the entry frequency
    is not 0, every count the conversion produces, on either path, is a
    64-bit unsigned value. *)
Theorem counts_are_uint64 (M : Module) (F : Function)
    (BFI : BlockFrequencyInfo) (Counts0 : list Z) (EntryBB : BasicBlock) :
  valid_BFI BFI →
  getEntryBlock F = Some EntryBB → getBlockFreq BFI EntryBB ≠ 0 →
  ∃ Counts, convertBFIToCounts M F BFI Counts0 = Some (true, Counts)
    ∧ ∀ v, v ∈ Counts → 0 ≤ v < 2 ^ 64.
Proof.
  intros HV HE Hnz.
  assert (He : 0 < getBlockFreq BFI EntryBB).
  { pose proof (HV EntryBB). unfold getBlockFreq in *. lia. }
  assert (Hscaled : ∀ v,
    v ∈ (ScaledCount BFI (getBlockFreq BFI EntryBB) <$> blocks F) →
    0 ≤ v < 2 ^ 64).
  { intros v Hv. apply list_elem_of_fmap in Hv as (BB & -> & _).
    by apply ScaledCount_range. }
  destruct (tryExtractCounterCount M F) as [N|] eqn:HN.
  - eexists. split; [by eapply convert_instrumented|].
    rewrite assign_counters_full. intros v Hv.
    apply elem_of_cons in Hv as [->|Hv]; [unfold DefaultEntryCount; lia|].
    apply list_elem_of_fmap in Hv as (i & -> & _).
    apply counter_value_range. intros w Hw. apply Hscaled.
    by rewrite <-(sort_reversed_Permutation _).
  - eexists. split; [by eapply convert_plain|]. done.
Qed.

(** X5.  Without a hint the counts follow the frequencies: a block that is
    at most as frequent as another one whose product with
    [DefaultEntryCount] fits 64 bits gets at most its count, and a block at
    most as frequent as the entry block gets at most [DefaultEntryCount]. *)
Theorem plain_counts_monotone (M : Module) (F : Function)
    (BFI : BlockFrequencyInfo) (Counts0 : list Z) (EntryBB : BasicBlock)
    (i j : nat) (B1 B2 : BasicBlock) :
  valid_BFI BFI →
  getEntryBlock F = Some EntryBB → getBlockFreq BFI EntryBB ≠ 0 →
  tryExtractCounterCount M F = None →
  blocks F !! i = Some B1 → blocks F !! j = Some B2 →
  getBlockFreq BFI B1 ≤ getBlockFreq BFI B2 →
  DefaultEntryCount * getBlockFreq BFI B2 < 2 ^ 64 →
  ∃ Counts v w, convertBFIToCounts M F BFI Counts0 = Some (true, Counts)
    ∧ Counts !! i = Some v ∧ Counts !! j = Some w ∧ v ≤ w
    ∧ (getBlockFreq BFI B2 ≤ getBlockFreq BFI EntryBB → w ≤ DefaultEntryCount).
Proof.
  intros HV HE Hnz HN Hi Hj Hle Hfit.
  pose proof (HV EntryBB) as HVe. pose proof (HV B1) as HV1.
  pose proof (HV B2) as HV2. unfold getBlockFreq in *.
  assert (He : 0 < BFI EntryBB) by lia.
  exists (ScaledCount BFI (getBlockFreq BFI EntryBB) <$> blocks F),
         (ScaledCount BFI (getBlockFreq BFI EntryBB) B1),
         (ScaledCount BFI (getBlockFreq BFI EntryBB) B2).
  split; [by eapply convert_plain|].
  rewrite !list_lookup_fmap, Hi, Hj. simpl. split; [done|]. split; [done|].
  unfold ScaledCount, getBlockFreq, DefaultEntryCount in *.
  rewrite !wrap64_small by lia. split.
  - apply Z.div_le_mono; lia.
  - intros Hle2. apply Z.div_le_upper_bound; [done|]. nia.
Qed.

(** The padding slots, read from the loop. *)
Lemma padding_lookup (sorted : list Z) (N i : nat) :
  (1 ≤ length sorted)%nat → Z.of_nat N < 2 ^ 32 →
  (length sorted ≤ i < N)%nat →
  assign_counters N N sorted 1 [DefaultEntryCount] !! i
  = Some (DefaultEntryCount / (Z.of_nat i + 1)).
Proof.
  intros HL HN Hi. rewrite instrumented_lookup by lia.
  unfold counter_value. rewrite decide_False by lia.
  by rewrite wrap32_small by lia.
Qed.

(** X6.  The padding fades out: a padding slot below index 100 holds a
    value from 1 to 50, and every padding slot from index 100 on holds 0. *)
Theorem padding_vanishes (M : Module) (F : Function)
    (BFI : BlockFrequencyInfo) (Counts0 : list Z) (EntryBB : BasicBlock) (N : nat) :
  getEntryBlock F = Some EntryBB → getBlockFreq BFI EntryBB ≠ 0 →
  tryExtractCounterCount M F = Some N →
  ∃ Counts, convertBFIToCounts M F BFI Counts0 = Some (true, Counts)
    ∧ ∀ i : nat, (length (blocks F) ≤ i < N)%nat →
        ((100 ≤ i)%nat → Counts !! i = Some 0)
        ∧ ((i < 100)%nat → ∃ v, Counts !! i = Some v ∧ 1 ≤ v ≤ 50).
Proof.
  intros HE Hnz HN.
  pose proof (counter_count_unsigned _ M F N HN) as HN32.
  destruct (entry_block_first F EntryBB HE) as [rest Hrest].
  eexists. split; [by eapply convert_instrumented|].
  intros i Hi.
  rewrite padding_lookup; try done.
  - unfold DefaultEntryCount. split.
    + intros Hbig. f_equal. apply Z.div_small. lia.
    + intros Hsmall. eexists. split; [done|].
      assert (2 ≤ Z.of_nat i + 1) by (rewrite Hrest in Hi; simpl in Hi; lia).
      split.
      * apply Z.div_le_lower_bound; lia.
      * apply Z.div_le_upper_bound; lia.
  - rewrite sort_reversed_length, length_fmap, Hrest. simpl. lia.
  - by rewrite sort_reversed_length, length_fmap.
Qed.

End ConversionMore.

(** ** More on the metadata lookup *)

Lemma hex_value_from_app (acc : Z) (s t : string) :
  hex_value_from acc (s +:+ t) = hex_value_from (hex_value_from acc s) t.
Proof. revert acc. induction s as [|c s IH]; intros acc; simpl; [done|apply IH]. Qed.

Lemma append_cancel_l (p s t : string) : p +:+ s = p +:+ t → s = t.
Proof.
  induction p as [|c p IH]; intros Heq; [done|].
  apply IH. by injection Heq.
Qed.

Lemma hex_value_digit (acc d : Z) :
  0 ≤ d < 16 → hex_value_from acc (hex_digit_upper d) = 16 * acc + d.
Proof.
  intros Hd.
  assert (d = 0 ∨ d = 1 ∨ d = 2 ∨ d = 3 ∨ d = 4 ∨ d = 5 ∨ d = 6 ∨ d = 7
          ∨ d = 8 ∨ d = 9 ∨ d = 10 ∨ d = 11 ∨ d = 12 ∨ d = 13 ∨ d = 14
          ∨ d = 15) as Hcases by lia.
  repeat destruct Hcases as [->|Hcases]; try subst d; simpl; lia.
Qed.

(** Reading back the [width] digits of [n] gives [n] modulo [16^width]. *)
Lemma hex_value_digits (width : nat) (acc n : Z) :
  hex_value_from acc (hex_digits width n)
  = acc * 16 ^ Z.of_nat width + n mod 16 ^ Z.of_nat width.
Proof.
  revert acc n. induction width as [|w IH]; intros acc n.
  { simpl. rewrite Z.mod_1_r. lia. }
  cbn [hex_digits]. rewrite hex_value_from_app, IH.
  rewrite hex_value_digit by (apply Z.mod_pos_bound; lia).
  rewrite Nat2Z.inj_succ, Z.pow_succ_r by lia.
  rewrite (Z.rem_mul_r n 16 (16 ^ Z.of_nat w)) by lia. lia.
Qed.

Lemma format_hex_round_trip (n : Z) :
  hex_value (format_hex_no_prefix_16_upper n) = wrap64 n.
Proof.
  unfold hex_value, format_hex_no_prefix_16_upper, wrap64.
  rewrite hex_value_digits. simpl. reflexivity.
Qed.

Section Lookup.

Context (getPGOFuncName : Function → string) (ComputeHash : string → Z).

Local Abbreviation tryExtractCounterCount := (tryExtractCounterCount getPGOFuncName).
Local Abbreviation tryExtractCoverageHash :=
  (tryExtractCoverageHash getPGOFuncName ComputeHash).
Local Abbreviation covrec_name := (covrec_name getPGOFuncName ComputeHash).
Local Abbreviation profd_name := (profd_name getPGOFuncName).

(** X7.  A counter count is found exactly when the module has a global
    named [__profd_<PGO name>] whose initializer is a constant struct with
    an integer seventh field; the count is that field truncated to 32 bits.
    A missing global, a missing or non-struct initializer, fewer than seven
    fields or a seventh field of another kind all give nothing. *)
Theorem counter_count_spec (M : Module) (F : Function) (N : nat) :
  tryExtractCounterCount M F = Some N
  ↔ ∃ (CS : list Constant) (v : Z),
      getNamedGlobal M (profd_name F) = Some (mkGlobal (Some (ConstantStruct CS)))
      ∧ CS !! 6%nat = Some (ConstantInt v)
      ∧ N = Z.to_nat (v mod 2 ^ 32).
Proof.
  assert (Htrunc : ∀ v, wrap32 (getZExtValue v) = v mod 2 ^ 32).
  { intros v. unfold wrap32, getZExtValue, wrap64.
    apply Z.mod_mod_divide. exists (2 ^ 32). reflexivity. }
  unfold_tryExtractCounterCount. split.
  - intros H.
    destruct (getNamedGlobal M (profd_name F)) as [[[[v|CS|]|]]|]; try done.
    cbn [getInitializer] in H. case_decide; [|done].
    destruct (CS !! 6%nat) as [[v| |]|] eqn:H6; try done.
    simplify_eq. exists CS, v. by rewrite Htrunc.
  - intros (CS & v & -> & H6 & ->). cbn [getInitializer].
    rewrite decide_True by (by eapply lookup_lt_Some).
    by rewrite H6, Htrunc.
Qed.

(** X8.  A structural hash is found exactly when the module has a global
    named [__covrec_<hex of the name hash>u] whose initializer is a
    constant struct with an integer third field; the hash is that field as
    a 64-bit unsigned value. *)
Theorem coverage_hash_spec (M : Module) (F : Function) (h : Z) :
  tryExtractCoverageHash M F = Some h
  ↔ ∃ (CS : list Constant) (v : Z),
      getNamedGlobal M (covrec_name F) = Some (mkGlobal (Some (ConstantStruct CS)))
      ∧ CS !! 2%nat = Some (ConstantInt v)
      ∧ h = v mod 2 ^ 64.
Proof.
  unfold_tryExtractCoverageHash. split.
  - intros H.
    destruct (getNamedGlobal M (covrec_name F)) as [[[[v|CS|]|]]|]; try done.
    cbn [getInitializer] in H. case_decide; [|done].
    destruct (CS !! 2%nat) as [[v| |]|] eqn:H2; try done.
    simplify_eq. by exists CS, v.
  - intros (CS & v & -> & H2 & ->). cbn [getInitializer].
    rewrite decide_True by (apply lookup_lt_Some in H2; lia).
    by rewrite H2.
Qed.

(** X9.  The name of the coverage record determines the name hash: two
    functions that look up the same record have the same 64-bit name hash,
    so a function never reads the record of a function hashed otherwise. *)
Theorem covrec_name_determines_hash (F F' : Function) :
  covrec_name F = covrec_name F' →
  wrap64 (ComputeHash (getPGOFuncName F))
  = wrap64 (ComputeHash (getPGOFuncName F')).
Proof.
  unfold_covrec_name. intros Heq.
  apply append_cancel_l in Heq.
  apply (f_equal (hex_value_from 0)) in Heq.
  rewrite !hex_value_from_app in Heq.
  change (hex_value_from 0 (format_hex_no_prefix_16_upper ?n))
    with (hex_value (format_hex_no_prefix_16_upper n)) in Heq.
  rewrite !format_hex_round_trip in Heq.
  cbn [hex_value_from hex_char_value] in Heq. lia.
Qed.

End Lookup.

(** ** More on the pass *)

(** With a nonzero entry frequency the conversion returns [true] and a
    vector that is not empty. *)
Lemma conversion_never_empty_aux (getPGOFuncName : Function → string)
    (M : Module) (F : Function) (BFI : BlockFrequencyInfo) (EntryBB : BasicBlock) :
  getEntryBlock F = Some EntryBB → getBlockFreq BFI EntryBB ≠ 0 →
  ∃ Counts, convertBFIToCounts getPGOFuncName M F BFI [] = Some (true, Counts)
    ∧ Counts ≠ [].
Proof.
  intros HE Hnz.
  destruct (tryExtractCounterCount getPGOFuncName M F) as [N|] eqn:HN.
  - eexists. split; [by eapply convert_instrumented|].
    by rewrite assign_counters_full.
  - eexists. split; [by eapply convert_plain|].
    destruct (entry_block_first F EntryBB HE) as [rest ->]. done.
Qed.

Lemma wrap32_add_l (a b : Z) : wrap32 (wrap32 a + b) = wrap32 (a + b).
Proof. unfold wrap32. apply Z.add_mod_idemp_l. lia. Qed.

Lemma incr_range (n : Z) : 0 ≤ incr n < 2 ^ 32.
Proof. apply wrap32_range. Qed.

Section PassMore.

Context (getPGOFuncName getIRPGOFuncName : Function → string).
Context (ComputeHash : string → Z).
Context {InstrProfWriter Error : Type}.
Context (addRecord :
  InstrProfWriter → NamedInstrProfRecord → Z → InstrProfWriter * list Error).
Context (BlockFrequencyAnalysis : Function → BlockFrequencyInfo).

Local Abbreviation convertBFIToCounts := (convertBFIToCounts getPGOFuncName).
Local Abbreviation run_function :=
  (run_function getPGOFuncName getIRPGOFuncName ComputeHash addRecord
     BlockFrequencyAnalysis).
Local Abbreviation run_loop :=
  (run_loop getPGOFuncName getIRPGOFuncName ComputeHash addRecord
     BlockFrequencyAnalysis).
Local Abbreviation run :=
  (run getPGOFuncName getIRPGOFuncName ComputeHash addRecord
     BlockFrequencyAnalysis).
Local Abbreviation record_for :=
  (record_for getPGOFuncName getIRPGOFuncName ComputeHash BlockFrequencyAnalysis).
Local Abbreviation submitted :=
  (submitted getPGOFuncName getIRPGOFuncName ComputeHash BlockFrequencyAnalysis).
Local Abbreviation conversion_failed :=
  (conversion_failed getPGOFuncName BlockFrequencyAnalysis).

(** The callback, counted. *)
Lemma warn_all_length (Errs : list Error) (skipped : Z) :
  0 ≤ skipped < 2 ^ 32 →
  warn_all Errs skipped = wrap32 (skipped + Z.of_nat (length Errs)).
Proof.
  unfold warn_all. revert skipped.
  induction Errs as [|E Errs IH]; intros skipped Hs; simpl.
  { rewrite Z.add_0_r. symmetry. by apply wrap32_small. }
  rewrite IH by apply incr_range. unfold incr.
  rewrite wrap32_add_l. f_equal. lia.
Qed.

(** [record_for] and [conversion_failed] in terms of the function: a
    record is submitted exactly for a function with an entry block of
    nonzero frequency, and the conversion fails exactly for one with an
    entry block of frequency 0. *)
Lemma record_for_is_Some (M : Module) (F : Function) :
  is_Some (record_for M F)
  ↔ ∃ EntryBB, getEntryBlock F = Some EntryBB
      ∧ getBlockFreq (BlockFrequencyAnalysis F) EntryBB ≠ 0.
Proof.
  unfold_record_for. unfold isDeclaration, getEntryBlock.
  destruct (blocks F) as [|EntryBB rest] eqn:HB; simpl.
  { split; [by intros [? ?]|]. by intros (? & ? & _). }
  assert (HE : getEntryBlock F = Some EntryBB).
  { unfold getEntryBlock. by rewrite HB. }
  destruct (decide (getBlockFreq (BlockFrequencyAnalysis F) EntryBB = 0)) as [Hz|Hnz].
  - rewrite (convert_zero_entry _ M F _ [] EntryBB HE Hz).
    split; [by intros [? ?]|]. intros (? & ? & ?). by simplify_eq.
  - destruct (conversion_never_empty_aux getPGOFuncName M F
                (BlockFrequencyAnalysis F) EntryBB HE Hnz) as (Counts & -> & _).
    split; eauto.
Qed.

Lemma record_for_counts (M : Module) (F : Function) (R : NamedInstrProfRecord) :
  record_for M F = Some R →
  Name R = getIRPGOFuncName F
  ∧ Hash R = computeFunctionHash getPGOFuncName ComputeHash M F
  ∧ convertBFIToCounts M F (BlockFrequencyAnalysis F) [] = Some (true, RecordCounts R)
  ∧ RecordCounts R ≠ [].
Proof.
  unfold_record_for. intros H.
  destruct (isDeclaration F); [done|].
  destruct (convertBFIToCounts M F (BlockFrequencyAnalysis F) [])
    as [[[] Counts]|] eqn:HC; simplify_eq. simpl.
  repeat split; try done.
  revert HC. unfold_convertBFIToCounts.
  destruct (getEntryBlock F); [|done]. case_decide; [done|].
  intros HC. injection HC as Hflag Heq. rewrite Heq in Hflag.
  intros Hnil. by rewrite Hnil in Hflag.
Qed.

Lemma conversion_failed_true (M : Module) (F : Function) :
  conversion_failed M F = true
  ↔ ∃ EntryBB, getEntryBlock F = Some EntryBB
      ∧ getBlockFreq (BlockFrequencyAnalysis F) EntryBB = 0.
Proof.
  unfold_conversion_failed. unfold isDeclaration, getEntryBlock.
  destruct (blocks F) as [|EntryBB rest] eqn:HB; simpl.
  { split; [done|]. by intros (? & ? & _). }
  assert (HE : getEntryBlock F = Some EntryBB).
  { unfold getEntryBlock. by rewrite HB. }
  destruct (decide (getBlockFreq (BlockFrequencyAnalysis F) EntryBB = 0)) as [Hz|Hnz].
  - rewrite (convert_zero_entry _ M F _ [] EntryBB HE Hz). split; eauto.
  - destruct (conversion_never_empty_aux getPGOFuncName M F
                (BlockFrequencyAnalysis F) EntryBB HE Hnz) as (Counts & -> & _).
    split; [done|]. intros (? & ? & ?). by simplify_eq.
Qed.

(** One iteration, by the three cases of the loop body. *)
Lemma run_function_cases (M : Module) (st : ExportState InstrProfWriter)
    (F : Function) :
  run_function M st F
  = Some match record_for M F with
         | Some R =>
             mkState (addRecord (Writer st) R 1).1
               (incr (FunctionsProcessed st))
               (warn_all (addRecord (Writer st) R 1).2 (FunctionsSkipped st))
         | None =>
             if conversion_failed M F
             then mkState (Writer st) (FunctionsProcessed st)
                    (incr (FunctionsSkipped st))
             else st
         end.
Proof.
  unfold_run_function. unfold_record_for. unfold_conversion_failed.
  destruct (isDeclaration F) eqn:HD; [done|].
  destruct (convert_defined getPGOFuncName M F (BlockFrequencyAnalysis F) [] HD)
    as [[[] Counts] ->]; [|done].
  by destruct (addRecord _ _ _).
Qed.

(** The state after the loop, for tallies that start as 32-bit values. *)
Lemma run_loop_state (M : Module) (Fs : list Function)
    (st : ExportState InstrProfWriter) :
  0 ≤ FunctionsProcessed st < 2 ^ 32 → 0 ≤ FunctionsSkipped st < 2 ^ 32 →
  run_loop M Fs st
  = Some (mkState
      (feed addRecord (Writer st) (submitted M Fs)).1
      (wrap32 (FunctionsProcessed st + Z.of_nat (length (submitted M Fs))))
      (wrap32 (FunctionsSkipped st
               + Z.of_nat (length (filter (λ F, conversion_failed M F = true) Fs))
               + Z.of_nat (feed addRecord (Writer st) (submitted M Fs)).2))).
Proof.
  revert st. induction Fs as [|F Fs IH]; intros [W p s] Hp Hs; simpl in *.
  { rewrite !Z.add_0_r, !wrap32_small by done. done. }
  rewrite run_function_cases. unfold_submitted. simpl.
  fold (submitted M Fs).
  destruct (record_for M F) as [R|] eqn:HR; simpl.
  - assert (conversion_failed M F ≠ true) as Hnf.
    { rewrite conversion_failed_true. intros (e & He & Hz).
      destruct (proj1 (record_for_is_Some M F)) as (e' & He' & Hnz); [by rewrite HR|].
      by simplify_eq. }
    rewrite filter_cons_False by done.
    destruct (addRecord W R 1) as [W' Errs] eqn:HA. simpl.
    rewrite IH by (simpl; first [apply incr_range | rewrite warn_all_length by done; apply wrap32_range]).
    simpl. destruct (feed addRecord W' (submitted M Fs)) as [W'' n]. simpl.
    rewrite warn_all_length by done. unfold incr.
    rewrite !wrap32_add_l, <-!Z.add_assoc, wrap32_add_l.
    do 2 f_equal; f_equal; lia.
  - destruct (conversion_failed M F) eqn:HF.
    + rewrite filter_cons_True by done.
      rewrite IH by (simpl; first [done | apply incr_range]). simpl.
      unfold incr. rewrite <-!Z.add_assoc, wrap32_add_l.
      do 2 f_equal. f_equal. simpl length. lia.
    + rewrite filter_cons_False by (by rewrite HF).
      by rewrite IH.
Qed.

Lemma submitted_cons (M : Module) (F : Function) (Fs : list Function) :
  submitted M (F :: Fs)
  = match record_for M F with
    | Some R => R :: submitted M Fs
    | None => submitted M Fs
    end.
Proof. reflexivity. Qed.

(** Every defined function is counted once: as submitted or as failed. *)
Lemma submitted_failed_defined (M : Module) (Fs : list Function) :
  (length (submitted M Fs)
   + length (filter (λ F, conversion_failed M F = true) Fs))%nat
  = length (filter (λ F, isDeclaration F = false) Fs).
Proof.
  induction Fs as [|F Fs IH]; [done|].
  rewrite submitted_cons.
  assert (Hcase :
    (isDeclaration F = true ∧ record_for M F = None ∧ conversion_failed M F = false)
    ∨ (isDeclaration F = false ∧ is_Some (record_for M F) ∧ conversion_failed M F = false)
    ∨ (isDeclaration F = false ∧ record_for M F = None ∧ conversion_failed M F = true)).
  { unfold_record_for. unfold_conversion_failed.
    destruct (isDeclaration F) eqn:HD; [by left|]. right.
    destruct (convert_defined getPGOFuncName M F (BlockFrequencyAnalysis F) [] HD)
      as [[[] Counts] ->]; [left|right]; eauto. }
  destruct Hcase as [(HD & HR & HF)|[(HD & [R HR] & HF)|(HD & HR & HF)]];
    rewrite HR.
  - rewrite !filter_cons_False by congruence. done.
  - rewrite (filter_cons_False (λ F, conversion_failed M F = true)) by congruence.
    rewrite filter_cons_True by done. cbn [length]. lia.
  - rewrite !filter_cons_True by done. cbn [length]. lia.
Qed.

Lemma submitted_length_le (M : Module) (Fs : list Function) :
  (length (submitted M Fs) ≤ length Fs)%nat.
Proof.
  pose proof (submitted_failed_defined M Fs).
  pose proof (length_filter (λ F, isDeclaration F = false) Fs). lia.
Qed.

(** X10.  The loop as [run] starts it.  The writer ends as if [addRecord]
    had been called with weight 1 on the records of the functions that have
    a body and whose conversion succeeds, in module order;
    [FunctionsProcessed] is the number of these records and
    [FunctionsSkipped] the number of failed conversions plus the number of
    errors the writer reported, both modulo [2^32]. *)
Theorem run_loop_from_start (M : Module) (Fs : list Function)
    (EmptyWriter : InstrProfWriter) :
  run_loop M Fs (mkState EmptyWriter 0 0)
  = Some (mkState
      (feed addRecord EmptyWriter (submitted M Fs)).1
      (wrap32 (Z.of_nat (length (submitted M Fs))))
      (wrap32 (Z.of_nat (length (filter (λ F, conversion_failed M F = true) Fs))
               + Z.of_nat (feed addRecord EmptyWriter (submitted M Fs)).2))).
Proof. rewrite run_loop_state by (simpl; lia). done. Qed.

(** X12.  With an output path and fewer than [2^32] functions, [run] gets
    to writing the profile exactly when some function of the module has an
    entry block of nonzero frequency, whatever the writer did with the
    records. *)
Theorem run_writes_iff (ProfilePath : string) (EmptyWriter : InstrProfWriter)
    (M : Module) :
  ProfilePath ≠ "" → Z.of_nat (length (functions M)) < 2 ^ 32 →
  (∃ st, run ProfilePath EmptyWriter M = Some (WriteProfile ProfilePath st))
  ↔ ∃ F EntryBB, F ∈ functions M
      ∧ getEntryBlock F = Some EntryBB
      ∧ getBlockFreq (BlockFrequencyAnalysis F) EntryBB ≠ 0.
Proof.
  intros HP Hlen. unfold_run. rewrite decide_False by done.
  rewrite run_loop_state by (simpl; lia). cbn [FunctionsProcessed FunctionsSkipped].
  pose proof (submitted_length_le M (functions M)) as Hle.
  rewrite wrap32_small by lia.
  split.
  - intros [st Hst]. case_decide as Hz; [done|].
    destruct (submitted M (functions M)) as [|R Rs] eqn:HS; [done|].
    assert (R ∈ submitted M (functions M)) as HR by (rewrite HS; left).
    revert HR. unfold_submitted. intros HR.
    apply list_elem_of_omap in HR as (F & HF & HR).
    destruct (proj1 (record_for_is_Some M F)) as (e & ? & ?); [by rewrite HR|].
    by exists F, e.
  - intros (F & e & HF & HE & Hnz).
    destruct (proj2 (record_for_is_Some M F)) as [R HR]; [by exists e|].
    assert (R ∈ submitted M (functions M)) as Hin.
    { unfold_submitted. apply list_elem_of_omap. by exists F. }
    rewrite decide_False; [by eexists|].
    destruct (submitted M (functions M)); [by apply elem_of_nil in Hin|].
    simpl. lia.
Qed.


(** A declaration leaves the state alone. *)
Lemma run_loop_declarations (M : Module) (Fs : list Function)
    (st : ExportState InstrProfWriter) :
  (∀ F, F ∈ Fs → isDeclaration F = true) → run_loop M Fs st = Some st.
Proof.
  induction Fs as [|F Fs IH]; intros Hall; simpl; [done|].
  unfold_run_function. rewrite Hall by left.
  apply IH. intros F' HF'. apply Hall. by right.
Qed.


(** X15.  [run] never takes the entry block of a function without blocks:
    declarations are set aside before the conversion, so the run is defined
    on every module, and without an output path it does nothing at all. *)
Theorem run_defined (ProfilePath : string) (EmptyWriter : InstrProfWriter)
    (M : Module) :
  is_Some (run ProfilePath EmptyWriter M)
  ∧ (ProfilePath = "" → run ProfilePath EmptyWriter M = Some NoOutputPath).
Proof.
  unfold_run. split.
  - case_decide; [eauto|].
    destruct (run_loop_total getPGOFuncName getIRPGOFuncName ComputeHash
                addRecord BlockFrequencyAnalysis M (functions M)
                (mkState EmptyWriter 0 0)) as [st ->].
    case_decide; eauto.
  - intros ->. done.
Qed.

(** The record of a function whose conversion succeeds. *)
Lemma record_for_intro (M : Module) (F : Function) (EntryBB : BasicBlock)
    (Counts : list Z) :
  getEntryBlock F = Some EntryBB →
  convertBFIToCounts M F (BlockFrequencyAnalysis F) [] = Some (true, Counts) →
  record_for M F
  = Some (mkRecord (getIRPGOFuncName F)
            (computeFunctionHash getPGOFuncName ComputeHash M F) Counts).
Proof.
  intros HE HC. unfold_record_for.
  assert (isDeclaration F = false) as ->.
  { unfold isDeclaration. by destruct (entry_block_first F EntryBB HE) as [? ->]. }
  by rewrite HC.
Qed.

(** C6.  For a function with a body whose entry frequency is 0 the
    conversion returns [false]; the iteration leaves the writer and
    [FunctionsProcessed] as they were and advances [FunctionsSkipped] by
    one (an [unsigned] increment).  The loop does not stop there: it goes
    on with the functions that are left and comes to its end, and then the
    writer has received the records of those functions, in order, and the
    tallies count them on top of the one skip. *)
Theorem zero_entry_frequency_skipped (M : Module)
    (st : ExportState InstrProfWriter) (F : Function) (Fs : list Function)
    (EntryBB : BasicBlock) :
  getEntryBlock F = Some EntryBB →
  getBlockFreq (BlockFrequencyAnalysis F) EntryBB = 0 →
  convertBFIToCounts M F (BlockFrequencyAnalysis F) [] = Some (false, [])
  ∧ ∃ st', run_function M st F = Some st'
      ∧ Writer st' = Writer st
      ∧ FunctionsProcessed st' = FunctionsProcessed st
      ∧ FunctionsSkipped st' = wrap32 (FunctionsSkipped st + 1)
      ∧ (0 ≤ FunctionsSkipped st < 2 ^ 32 - 1 →
           FunctionsSkipped st' = FunctionsSkipped st + 1)
      ∧ run_loop M (F :: Fs) st = run_loop M Fs st'
      ∧ ∃ final, run_loop M (F :: Fs) st = Some final
          ∧ (0 ≤ FunctionsProcessed st < 2 ^ 32 →
             0 ≤ FunctionsSkipped st < 2 ^ 32 →
               Writer final = (feed addRecord (Writer st) (submitted M Fs)).1
               ∧ FunctionsProcessed final
                 = wrap32 (FunctionsProcessed st
                           + Z.of_nat (length (submitted M Fs)))
               ∧ FunctionsSkipped final
                 = wrap32 (FunctionsSkipped st + 1
                           + Z.of_nat (length (filter
                               (λ G, conversion_failed M G = true) Fs))
                           + Z.of_nat (feed addRecord (Writer st)
                                         (submitted M Fs)).2)).
Proof.
  intros HE Hz.
  pose proof (convert_zero_entry getPGOFuncName M F _ [] EntryBB HE Hz) as HC.
  split; [done|].
  assert (HD : isDeclaration F = false).
  { unfold isDeclaration. by destruct (entry_block_first F EntryBB HE) as [? ->]. }
  assert (HR : run_function M st F
               = Some (mkState (Writer st) (FunctionsProcessed st)
                         (incr (FunctionsSkipped st)))).
  { unfold_run_function. by rewrite HD, HC. }
  assert (HL : run_loop M (F :: Fs) st
               = run_loop M Fs (mkState (Writer st) (FunctionsProcessed st)
                                  (incr (FunctionsSkipped st)))).
  { simpl. by rewrite HR. }
  eexists. split; [exact HR|]. cbn [Writer FunctionsProcessed FunctionsSkipped].
  split; [done|]. split; [done|]. split; [done|].
  split; [apply incr_no_wrap|]. split; [exact HL|].
  destruct (run_loop_total getPGOFuncName getIRPGOFuncName ComputeHash addRecord
              BlockFrequencyAnalysis M (F :: Fs) st) as [final Hfinal].
  exists final. split; [done|]. intros Hp Hs.
  rewrite HL, run_loop_state in Hfinal
    by (cbn [FunctionsProcessed FunctionsSkipped]; first [done | apply incr_range]).
  cbn [Writer FunctionsProcessed FunctionsSkipped] in Hfinal.
  injection Hfinal as <-. cbn [Writer FunctionsProcessed FunctionsSkipped].
  split; [done|]. split; [done|].
  unfold incr. by rewrite <-!Z.add_assoc, wrap32_add_l, !Z.add_assoc.
Qed.

End PassMore.

(** ** What the writer is handed *)

Lemma feed_trace (W : TraceWriter) (Rs : list NamedInstrProfRecord) :
  feed trace_addRecord W Rs = (W ++ ((λ R, (R, 1)) <$> Rs), 0%nat).
Proof.
  revert W. induction Rs as [|R Rs IH]; intros W; simpl.
  { by rewrite app_nil_r. }
  rewrite IH. by rewrite <-app_assoc.
Qed.

Section Handed.

Context (getPGOFuncName getIRPGOFuncName : Function → string).
Context (ComputeHash : string → Z).
Context (BlockFrequencyAnalysis : Function → BlockFrequencyInfo).

(** X11.  The calls of [addRecord], observed with a writer that only keeps
    track of them: when the loop of [run] has come to its end, the writer
    was handed a record with a weight exactly when the weight is 1 and the
    record carries, for some function of the module with an entry block of
    nonzero frequency, the IR PGO name of that function, the hash
    [computeFunctionHash] gives it and the nonempty count vector of its
    conversion. *)
Theorem loop_hands_over_records (M : Module) (Fs : list Function) :
  ∃ final : ExportState TraceWriter,
    run_loop getPGOFuncName getIRPGOFuncName ComputeHash trace_addRecord
      BlockFrequencyAnalysis M Fs (mkState [] 0 0) = Some final
    ∧ ∀ (R : NamedInstrProfRecord) (Weight : Z),
        (R, Weight) ∈ Writer final
        ↔ Weight = 1
          ∧ ∃ F EntryBB, F ∈ Fs
              ∧ getEntryBlock F = Some EntryBB
              ∧ getBlockFreq (BlockFrequencyAnalysis F) EntryBB ≠ 0
              ∧ Name R = getIRPGOFuncName F
              ∧ Hash R = computeFunctionHash getPGOFuncName ComputeHash M F
              ∧ convertBFIToCounts getPGOFuncName M F (BlockFrequencyAnalysis F) []
                = Some (true, RecordCounts R)
              ∧ RecordCounts R ≠ [].
Proof.
  eexists. split; [apply run_loop_state; simpl; lia|].
  cbn [Writer]. rewrite feed_trace. cbn [fst app].
  intros R Weight. rewrite list_elem_of_fmap. unfold_submitted. split.
  - intros (R' & Heq & HR'). simplify_eq. split; [done|].
    apply list_elem_of_omap in HR' as (F & HF & HR).
    destruct (proj1 (record_for_is_Some getPGOFuncName getIRPGOFuncName
                       ComputeHash BlockFrequencyAnalysis M F))
      as (EntryBB & HE & Hnz); [by rewrite HR|].
    exists F, EntryBB.
    destruct (record_for_counts getPGOFuncName getIRPGOFuncName ComputeHash
                BlockFrequencyAnalysis M F R' HR) as (? & ? & ? & ?).
    done.
  - intros (-> & F & EntryBB & HF & HE & Hnz & Hname & Hhash & HC & Hne).
    exists R. split; [done|].
    apply list_elem_of_omap. exists F. split; [done|].
    rewrite (record_for_intro getPGOFuncName getIRPGOFuncName ComputeHash
               BlockFrequencyAnalysis M F EntryBB (RecordCounts R) HE HC).
    destruct R as [n h c]. simpl in *. by subst.
Qed.

End Handed.

(** ** The plugin and the tool *)

Lemma is_help_flag_true (arg : string) :
  is_help_flag arg = true ↔ arg = "-h" ∨ arg = "--help" ∨ arg = "-help".
Proof.
  unfold is_help_flag. rewrite !orb_true_iff, !bool_decide_eq_true. tauto.
Qed.

Section Frontends.

Context (getPGOFuncName getIRPGOFuncName : Function → string).
Context (ComputeHash : string → Z).
Context {InstrProfWriter Error : Type}.
Context (addRecord :
  InstrProfWriter → NamedInstrProfRecord → Z → InstrProfWriter * list Error).
Context (BlockFrequencyAnalysis : Function → BlockFrequencyInfo).
Context (EmptyWriter : InstrProfWriter).
Context (parseIRFile : string → option Module).

Local Abbreviation run :=
  (run getPGOFuncName getIRPGOFuncName ComputeHash addRecord
     BlockFrequencyAnalysis).
Local Abbreviation main :=
  (main getPGOFuncName getIRPGOFuncName ComputeHash addRecord
     BlockFrequencyAnalysis EmptyWriter parseIRFile).

(** X16.  The plugin adds no pass exactly when no dump path is given and
    the dump flag is off; a pass it adds has the given path, or
    ["default.profdata"] when only the flag is set, never the empty path,
    so such a pass never ends for want of an output path. *)
Theorem plugin_pass_has_output_path (StaticProfileDumpPath : string)
    (StaticProfileDump : bool) :
  (registerCASPCallbacks StaticProfileDumpPath StaticProfileDump = []
   ↔ StaticProfileDumpPath = "" ∧ StaticProfileDump = false)
  ∧ ∀ ProfilePath,
      ProfilePath ∈ registerCASPCallbacks StaticProfileDumpPath StaticProfileDump →
      ProfilePath ≠ ""
      ∧ (ProfilePath = StaticProfileDumpPath
         ∨ (ProfilePath = "default.profdata" ∧ StaticProfileDumpPath = ""
            ∧ StaticProfileDump = true))
      ∧ ∀ M, run ProfilePath EmptyWriter M ≠ Some NoOutputPath.
Proof.
  unfold registerCASPCallbacks.
  destruct (decide (StaticProfileDumpPath = "")) as [->|Hne].
  - destruct StaticProfileDump; simpl.
    + split; [split; [intros H; discriminate H|intros [_ H]; discriminate H]|].
      intros P HP. apply list_elem_of_singleton in HP as ->.
      split; [done|]. split; [by right|].
      intros M. unfold_run. simpl.
      destruct (run_loop _ _ _ _ _ _ _ _); [case_decide|]; done.
    + split; [by split|]. intros P HP. by apply elem_of_nil in HP.
  - rewrite (bool_decide_eq_false_2 (StaticProfileDumpPath = "")) by done. simpl.
    rewrite (bool_decide_eq_false_2 (StaticProfileDumpPath = "")) by done. simpl.
    split; [split; [intros H; discriminate H|by intros [? _]]|].
    intros P HP. apply list_elem_of_singleton in HP as ->.
    split; [done|]. split; [by left|].
    intros M. unfold_run. rewrite decide_False by done.
    destruct (run_loop _ _ _ _ _ _ _ _); [case_decide|]; done.
Qed.

(** X17.  The tool prints its help exactly when it is called with one
    argument and that argument is [-h], [--help] or [-help]; followed by
    another argument such a flag is taken for the input file name. *)
Theorem main_help_iff (argv : list string) :
  main argv = HelpPrinted
  ↔ length argv = 2%nat
    ∧ (argv_at argv 1 = "-h" ∨ argv_at argv 1 = "--help"
       ∨ argv_at argv 1 = "-help").
Proof.
  rewrite <-is_help_flag_true. unfold_main. split.
  - intros H.
    destruct (bool_decide (length argv = 2%nat) && is_help_flag (argv_at argv 1))
      eqn:Hb.
    + apply andb_true_iff in Hb as [Hlen Hflag].
      by apply bool_decide_eq_true in Hlen.
    + destruct (_ || _); [done|]. by destruct (parseIRFile _).
  - intros [Hlen Hflag]. by rewrite (bool_decide_eq_true_2 _ Hlen), Hflag.
Qed.

(** X18.  The tool ends with the usage message, and returns 1, exactly
    when it is called with no argument or with more than two (a lone help
    flag aside, which is one argument). *)
Theorem main_usage_iff (argv : list string) :
  main argv = UsagePrinted ↔ (length argv < 2 ∨ 3 < length argv)%nat.
Proof.
  unfold_main. split.
  - intros H.
    destruct (bool_decide (length argv = 2%nat) && is_help_flag (argv_at argv 1));
      [done|].
    repeat case_bool_decide; simpl in *; try lia; by destruct (parseIRFile _).
  - intros Hlen.
    rewrite (bool_decide_eq_false_2 (length argv = 2%nat)) by lia. simpl.
    destruct Hlen.
    + by rewrite (bool_decide_eq_true_2 (length argv < 2)%nat).
    + rewrite (bool_decide_eq_true_2 (3 < length argv)%nat) by done.
      by rewrite orb_true_r.
Qed.

(** X19.  Called with an input file that loads, and with or without an
    output file, the tool runs the pass on the module with the output file
    given, or ["output.profdata"] when there is none, prints that the
    profile was written and returns 0, whatever the pass did; when the file
    does not load it returns 1 and the pass is not run. *)
Theorem main_runs_pass (argv : list string) :
  (2 ≤ length argv ≤ 3)%nat →
  ¬ (length argv = 2%nat ∧ is_help_flag (argv_at argv 1) = true) →
  match parseIRFile (argv_at argv 1) with
  | Some M =>
      main argv
      = ReportedWritten
          (if bool_decide (length argv = 3%nat) then argv_at argv 2
           else "output.profdata")
          (run (if bool_decide (length argv = 3%nat) then argv_at argv 2
                else "output.profdata") EmptyWriter M)
      ∧ exit_code (main argv) = 0
  | None =>
      main argv = LoadFailed (argv_at argv 1) ∧ exit_code (main argv) = 1
  end.
Proof.
  intros Hlen Hhelp. unfold_main.
  assert (bool_decide (length argv = 2%nat) && is_help_flag (argv_at argv 1) = false)
    as ->.
  { apply andb_false_iff. destruct (decide (length argv = 2%nat)) as [H2|H2].
    - right. destruct (is_help_flag _); [|done]. by destruct Hhelp.
    - left. by apply bool_decide_eq_false_2. }
  rewrite (bool_decide_eq_false_2 (length argv < 2)%nat) by lia.
  rewrite (bool_decide_eq_false_2 (3 < length argv)%nat) by lia. simpl.
  by destruct (parseIRFile (argv_at argv 1)).
Qed.

(** X20.  Called with an input file alone whose module has no function
    body, the tool still prints that the profile was written to
    ["output.profdata"] and returns 0, although the pass stopped before
    writing anything. *)
Theorem main_reports_unwritten_profile (argv : list string) (M : Module) :
  length argv = 2%nat → is_help_flag (argv_at argv 1) = false →
  parseIRFile (argv_at argv 1) = Some M →
  (∀ F, F ∈ functions M → isDeclaration F = true) →
  main argv = ReportedWritten "output.profdata" (Some (NoFunctionsProcessed 0))
  ∧ exit_code (main argv) = 0.
Proof.
  intros Hlen Hhelp HM Hall. unfold_main.
  rewrite Hhelp, andb_false_r, Hlen, HM. simpl.
  unfold_run. simpl.
  rewrite (run_loop_declarations getPGOFuncName getIRPGOFuncName ComputeHash
             addRecord BlockFrequencyAnalysis M (functions M)) by done.
  done.
Qed.

End Frontends.

(** ** The example programs *)

Lemma buffer_copy_loop_in_bounds (fuel n i : nat) (d s : list Z) :
  (n - i ≤ fuel)%nat → (i ≤ n)%nat → (n ≤ length s)%nat → (n ≤ length d)%nat →
  ∃ d', buffer_copy_loop fuel n i d s = Some d'
    ∧ length d' = length d
    ∧ (∀ k : nat, (i ≤ k < n)%nat → d' !! k = s !! k)
    ∧ (∀ k : nat, (k < i ∨ n ≤ k)%nat → d' !! k = d !! k).
Proof.
  revert i d. induction fuel as [|fuel IH]; intros i d Hfuel Hi Hs Hd; simpl.
  { exists d. split; [done|]. split; [done|]. split; [intros k Hk; lia|done]. }
  case_decide as Hlt.
  - destruct (lookup_lt_is_Some_2 s i) as [v Hv]; [lia|]. rewrite Hv.
    rewrite decide_True by lia.
    destruct (IH (S i) (<[i:=v]> d)) as (d' & -> & Hlen & Hcopied & Hkept);
      try (rewrite ?length_insert; lia).
    exists d'. rewrite length_insert in Hlen.
    split; [done|]. split; [done|]. split.
    + intros k Hk. destruct (decide (k = i)) as [->|Hne].
      * rewrite Hkept by lia. rewrite list_lookup_insert_eq by lia. done.
      * apply Hcopied. lia.
    + intros k Hk. rewrite Hkept by lia.
      apply list_lookup_insert_ne. lia.
  - exists d. split; [done|]. split; [done|]. split; [intros k Hk; lia|done].
Qed.

Lemma buffer_copy_loop_out_of_bounds (fuel n i : nat) (d s : list Z) :
  (n - i ≤ fuel)%nat → (i ≤ length s)%nat → (i ≤ length d)%nat →
  (length s < n ∨ length d < n)%nat →
  buffer_copy_loop fuel n i d s = None.
Proof.
  revert i d. induction fuel as [|fuel IH]; intros i d Hfuel Hs Hd Hout; simpl.
  { lia. }
  rewrite decide_True by lia.
  destruct (s !! i) as [v|] eqn:Hv; [|done].
  apply lookup_lt_Some in Hv.
  case_decide as Hid; [|done].
  apply IH; rewrite ?length_insert; lia.
Qed.

(** X21.  [buffer_copy] on two arrays that hold at least [n] elements
    returns 0; afterwards the first [n] elements of the destination are
    those of the source and the others, like its length, are unchanged. *)
Theorem buffer_copy_copies (d s : list Z) (n : nat) :
  (n ≤ length s)%nat → (n ≤ length d)%nat →
  ∃ d', buffer_copy (Some d) (Some s) n = Some (0, Some d')
    ∧ length d' = length d
    ∧ (∀ k : nat, (k < n)%nat → d' !! k = s !! k)
    ∧ (∀ k : nat, (n ≤ k)%nat → d' !! k = d !! k).
Proof.
  intros Hs Hd. unfold buffer_copy. case_decide as Hn.
  - exists d. subst n. split; [done|]. split; [done|]. split; [intros k Hk; lia|done].
  - destruct (buffer_copy_loop_in_bounds n n 0 d s) as (d' & -> & Hlen & Hc & Hk);
      try lia.
    exists d'. split; [done|]. split; [done|]. split.
    + intros k Hlt. apply Hc. lia.
    + intros k Hge. apply Hk. lia.
Qed.

(** X22.  [buffer_copy] with a null destination or a null source returns
    -1 and writes nothing, whatever [n] is; with two arrays of which one
    holds fewer than [n] elements it runs out of the shorter one. *)
Theorem buffer_copy_edges (dst src : option (list Z)) (n : nat) :
  (dst = None ∨ src = None → buffer_copy dst src n = Some (-1, dst))
  ∧ (∀ d s, dst = Some d → src = Some s →
       (length s < n ∨ length d < n)%nat → buffer_copy dst src n = None).
Proof.
  split.
  - intros [->| ->]; [done|]. by destruct dst.
  - intros d s -> -> Hout. unfold buffer_copy.
    rewrite decide_False by lia.
    rewrite buffer_copy_loop_out_of_bounds; [done|lia..|done].
Qed.

Lemma factorial_fuel_spec (fuel : nat) (n : Z) :
  (1 ≤ fuel)%nat → n ≤ Z.of_nat fuel →
  factorial_fuel fuel n
  = if decide (n ≤ 1) then IntValue 1
    else if decide (n ≤ 12) then IntValue (Zfact (Z.to_nat n))
    else SignedOverflow.
Proof.
  revert n. induction fuel as [|fuel IH]; intros n Hfuel Hn; [lia|].
  cbn [factorial_fuel]. case_decide as H1; [done|].
  rewrite IH by lia.
  destruct (decide (n ≤ 13)) as [H13|H13].
  - assert (n = 2 ∨ n = 3 ∨ n = 4 ∨ n = 5 ∨ n = 6 ∨ n = 7 ∨ n = 8 ∨ n = 9
            ∨ n = 10 ∨ n = 11 ∨ n = 12 ∨ n = 13) as Hcases by lia.
    repeat destruct Hcases as [->|Hcases]; try subst n; vm_compute; reflexivity.
  - rewrite !decide_False by lia. done.
Qed.

(** X23.  [factorial] returns 1 for every argument up to 1, negative ones
    included, and the factorial of its argument from 0 to 12; from 13 on the
    multiplication overflows [int].  The recursion always comes to an
    end. *)
Theorem factorial_spec (n : Z) :
  (n ≤ 1 → factorial n = IntValue 1)
  ∧ (0 ≤ n ≤ 12 → factorial n = IntValue (Zfact (Z.to_nat n)))
  ∧ (13 ≤ n → factorial n = SignedOverflow)
  ∧ factorial n ≠ FuelExhausted.
Proof.
  unfold factorial.
  rewrite factorial_fuel_spec by lia.
  repeat split.
  - intros H1. by rewrite decide_True.
  - intros H12. case_decide as H1.
    + assert (n = 0 ∨ n = 1) as [->| ->] by lia; reflexivity.
    + by rewrite decide_True by lia.
  - intros H13. by rewrite !decide_False by lia.
  - repeat case_decide; done.
Qed.

(** ** Further scenarios *)

Lemma freq_10_5_valid : valid_BFI freq_10_5.
Proof. intros [|BB]; simpl; lia. Qed.

Lemma conversion_clears_after_entry_test_witness :
  (getBlockFreq freq_10_5 0%nat ≠ 0 →
     convertBFIToCounts external_name (module_hint two_blocks 3) two_blocks
       freq_10_5 [7; 7]
     = convertBFIToCounts external_name (module_hint two_blocks 3) two_blocks
         freq_10_5 [])
  ∧ (getBlockFreq freq_10_5 0%nat = 0 →
       convertBFIToCounts external_name (module_hint two_blocks 3) two_blocks
         freq_10_5 [7; 7] = Some (false, [7; 7])).
Proof.
  apply (conversion_clears_after_entry_test external_name
           (module_hint two_blocks 3) two_blocks freq_10_5 [7; 7] 0%nat).
  reflexivity.
Defined.

Lemma instrumented_counts_closed_form_witness :
  convertBFIToCounts external_name (module_hint three_blocks 5) three_blocks
    freq_10_5_20 [] = Some (true, [100; 100; 50; 25; 20]).
Proof.
  apply (instrumented_counts_closed_form external_name
           (module_hint three_blocks 5) three_blocks freq_10_5_20 [] 0%nat 5%nat).
  - reflexivity.
  - vm_compute. discriminate.
  - vm_compute. reflexivity.
Defined.

Lemma instrumented_counts_order_independent_witness :
  convertBFIToCounts external_name (module_hint three_blocks 3) three_blocks
    freq_10_5_20 []
  = convertBFIToCounts external_name (module_hint three_blocks 3)
      (mkFunction "h" [0%nat; 2%nat; 1%nat]) freq_10_5_20 [].
Proof.
  apply (instrumented_counts_order_independent external_name
           (module_hint three_blocks 3) three_blocks
           (mkFunction "h" [0%nat; 2%nat; 1%nat]) freq_10_5_20 [] [] 0%nat 3%nat).
  - reflexivity.
  - reflexivity.
  - simpl. apply perm_skip, perm_swap.
  - vm_compute. discriminate.
  - vm_compute. reflexivity.
  - vm_compute. reflexivity.
Defined.

Lemma counts_are_uint64_witness :
  ∃ Counts,
    convertBFIToCounts external_name (module_hint one_block 14) one_block
      freq_10_5 [] = Some (true, Counts)
    ∧ ∀ v, v ∈ Counts → 0 ≤ v < 2 ^ 64.
Proof.
  apply (counts_are_uint64 external_name (module_hint one_block 14) one_block
           freq_10_5 [] 0%nat).
  - intros [|BB]; simpl; lia.
  - reflexivity.
  - vm_compute. discriminate.
Defined.

Lemma plain_counts_monotone_witness :
  ∃ Counts v w,
    convertBFIToCounts external_name (module_plain [two_blocks]) two_blocks
      freq_10_5 [] = Some (true, Counts)
    ∧ Counts !! 1%nat = Some v ∧ Counts !! 0%nat = Some w ∧ v ≤ w
    ∧ (getBlockFreq freq_10_5 0%nat ≤ getBlockFreq freq_10_5 0%nat →
       w ≤ DefaultEntryCount).
Proof.
  apply (plain_counts_monotone external_name (module_plain [two_blocks])
           two_blocks freq_10_5 [] 0%nat 1%nat 0%nat 1%nat 0%nat).
  - intros [|BB]; simpl; lia.
  - reflexivity.
  - vm_compute. discriminate.
  - vm_compute. reflexivity.
  - reflexivity.
  - reflexivity.
  - unfold getBlockFreq. simpl. lia.
  - vm_compute. reflexivity.
Defined.

Lemma padding_vanishes_witness :
  ∃ Counts,
    convertBFIToCounts external_name (module_hint one_block 14) one_block
      freq_10_5 [] = Some (true, Counts)
    ∧ ∀ i : nat, (length (blocks one_block) ≤ i < 14)%nat →
        ((100 ≤ i)%nat → Counts !! i = Some 0)
        ∧ ((i < 100)%nat → ∃ v, Counts !! i = Some v ∧ 1 ≤ v ≤ 50).
Proof.
  apply (padding_vanishes external_name (module_hint one_block 14) one_block
           freq_10_5 [] 0%nat 14%nat).
  - reflexivity.
  - vm_compute. discriminate.
  - vm_compute. reflexivity.
Defined.

Lemma covrec_name_determines_hash_witness :
  wrap64 (length_hash (external_name one_block))
  = wrap64 (length_hash (external_name escaped_two_blocks)).
Proof.
  apply (covrec_name_determines_hash external_name length_hash
           one_block escaped_two_blocks).
  vm_compute. reflexivity.
Defined.

Lemma run_writes_iff_witness :
  (∃ st, run external_name external_name length_hash list_addRecord
           (λ _, freq_10_5) "out.profdata" []
           (module_plain [one_block; escaped_two_blocks])
         = Some (WriteProfile "out.profdata" st))
  ↔ ∃ F EntryBB, F ∈ functions (module_plain [one_block; escaped_two_blocks])
      ∧ getEntryBlock F = Some EntryBB
      ∧ getBlockFreq freq_10_5 EntryBB ≠ 0.
Proof.
  apply (run_writes_iff external_name external_name length_hash list_addRecord
           (λ _, freq_10_5) "out.profdata" []
           (module_plain [one_block; escaped_two_blocks])).
  - discriminate.
  - simpl. lia.
Defined.



Lemma main_runs_pass_witness :
  main external_name external_name length_hash list_addRecord (λ _, freq_10_5)
    [] (λ _, Some (module_plain [one_block])) ["casp"; "in.ll"]
  = ReportedWritten "output.profdata"
      (run external_name external_name length_hash list_addRecord
         (λ _, freq_10_5) "output.profdata" [] (module_plain [one_block]))
  ∧ exit_code
      (main external_name external_name length_hash list_addRecord
         (λ _, freq_10_5) [] (λ _, Some (module_plain [one_block]))
         ["casp"; "in.ll"]) = 0.
Proof.
  apply (main_runs_pass external_name external_name length_hash list_addRecord
           (λ _, freq_10_5) [] (λ _, Some (module_plain [one_block]))
           ["casp"; "in.ll"]).
  - simpl. lia.
  - intros [_ H]. vm_compute in H. discriminate H.
Defined.

Lemma main_reports_unwritten_profile_witness :
  main external_name external_name length_hash list_addRecord (λ _, freq_10_5)
    [] (λ _, Some (module_plain [mkFunction "puts" []])) ["casp"; "decls.ll"]
  = ReportedWritten "output.profdata" (Some (NoFunctionsProcessed 0))
  ∧ exit_code
      (main external_name external_name length_hash list_addRecord
         (λ _, freq_10_5) [] (λ _, Some (module_plain [mkFunction "puts" []]))
         ["casp"; "decls.ll"]) = 0.
Proof.
  apply (main_reports_unwritten_profile external_name external_name length_hash
           list_addRecord (λ _, freq_10_5) []
           (λ _, Some (module_plain [mkFunction "puts" []]))
           ["casp"; "decls.ll"] (module_plain [mkFunction "puts" []])).
  - reflexivity.
  - vm_compute. reflexivity.
  - reflexivity.
  - intros F HF. apply list_elem_of_singleton in HF. rewrite HF. reflexivity.
Defined.

(** The call of [test_buffer_copy.c]. *)
Lemma buffer_copy_copies_witness :
  ∃ d', buffer_copy (Some [0; 0; 0]) (Some [1; 2; 3]) 3 = Some (0, Some d')
    ∧ length d' = 3%nat
    ∧ (∀ k : nat, (k < 3)%nat → d' !! k = [1; 2; 3] !! k)
    ∧ (∀ k : nat, (3 ≤ k)%nat → d' !! k = [0; 0; 0] !! k).
Proof.
  apply (buffer_copy_copies [0; 0; 0] [1; 2; 3] 3); simpl; lia.
Defined.

(** A [__profd_] record whose counter field is [2^32 + 3] announces three
    counters. *)
Lemma counter_count_spec_witness :
  tryExtractCounterCount external_name (module_hint one_block (2 ^ 32 + 3))
    one_block = Some 3%nat.
Proof.
  apply (proj2 (counter_count_spec external_name
                  (module_hint one_block (2 ^ 32 + 3)) one_block 3%nat)).
  exists [ConstantInt 0; ConstantInt 0; ConstantInt 0; ConstantInt 0;
          ConstantOther; ConstantOther; ConstantInt (2 ^ 32 + 3)], (2 ^ 32 + 3).
  split; [vm_compute; reflexivity|]. split; reflexivity.
Defined.

Lemma coverage_hash_spec_witness :
  tryExtractCoverageHash external_name length_hash
    (module_covrec one_block 48879) one_block = Some 48879.
Proof.
  apply (proj2 (coverage_hash_spec external_name length_hash
                  (module_covrec one_block 48879) one_block 48879)).
  exists [ConstantInt 0; ConstantInt 0; ConstantInt 48879], 48879.
  split; [vm_compute; reflexivity|]. split; reflexivity.
Defined.

Lemma run_defined_witness :
  run external_name external_name length_hash list_addRecord (λ _, freq_10_5)
    "" [] (module_plain [one_block]) = Some NoOutputPath.
Proof.
  apply (proj2 (run_defined external_name external_name length_hash
                  list_addRecord (λ _, freq_10_5) "" []
                  (module_plain [one_block]))).
  reflexivity.
Defined.

Lemma plugin_pass_has_output_path_witness :
  "default.profdata" ≠ ""
  ∧ ("default.profdata" = ""
     ∨ ("default.profdata" = "default.profdata" ∧ "" = "" ∧ true = true))
  ∧ ∀ M, run external_name external_name length_hash list_addRecord
           (λ _, freq_10_5) "default.profdata" [] M ≠ Some NoOutputPath.
Proof.
  apply (proj2 (plugin_pass_has_output_path external_name external_name
                  length_hash list_addRecord (λ _, freq_10_5) [] "" true)
           "default.profdata").
  vm_compute. left.
Defined.

Lemma main_help_iff_witness :
  main external_name external_name length_hash list_addRecord (λ _, freq_10_5)
    [] (λ _, None) ["casp"; "--help"] = HelpPrinted.
Proof.
  apply (proj2 (main_help_iff external_name external_name length_hash
                  list_addRecord (λ _, freq_10_5) [] (λ _, None)
                  ["casp"; "--help"])).
  split; [reflexivity|]. right. left. reflexivity.
Defined.

Lemma main_usage_iff_witness :
  main external_name external_name length_hash list_addRecord (λ _, freq_10_5)
    [] (λ _, None) ["casp"; "in.ll"; "out.profdata"; "more"] = UsagePrinted.
Proof.
  apply (proj2 (main_usage_iff external_name external_name length_hash
                  list_addRecord (λ _, freq_10_5) [] (λ _, None)
                  ["casp"; "in.ll"; "out.profdata"; "more"])).
  right. simpl. lia.
Defined.

Lemma buffer_copy_edges_witness :
  buffer_copy None (Some [1; 2; 3]) 3 = Some (-1, None).
Proof.
  apply (proj1 (buffer_copy_edges None (Some [1; 2; 3]) 3)).
  left. reflexivity.
Defined.

(** The call of [simple.c]. *)
Lemma factorial_spec_witness : factorial 5 = IntValue 120.
Proof.
  apply (proj1 (proj2 (factorial_spec 5))). lia.
Defined.

(** A first function whose entry never runs, followed by one that is
    processed: the run ends with one record, one function processed and one
    skipped. *)
Lemma zero_entry_frequency_skipped_witness :
  convertBFIToCounts external_name (module_plain [one_block; two_blocks])
    one_block (analysis_cold_g one_block) [] = Some (false, [])
  ∧ ∃ st' : ExportState ListWriter,
      run_function external_name external_name length_hash list_addRecord
        analysis_cold_g (module_plain [one_block; two_blocks])
        (mkState [] 0 0) one_block = Some st'
      ∧ Writer st' = []
      ∧ FunctionsProcessed st' = 0
      ∧ FunctionsSkipped st' = wrap32 (0 + 1)
      ∧ (0 ≤ 0 < 2 ^ 32 - 1 → FunctionsSkipped st' = 0 + 1)
      ∧ run_loop external_name external_name length_hash list_addRecord
          analysis_cold_g (module_plain [one_block; two_blocks])
          [one_block; two_blocks] (mkState [] 0 0)
        = run_loop external_name external_name length_hash list_addRecord
            analysis_cold_g (module_plain [one_block; two_blocks])
            [two_blocks] st'
      ∧ ∃ final : ExportState ListWriter,
          run_loop external_name external_name length_hash list_addRecord
            analysis_cold_g (module_plain [one_block; two_blocks])
            [one_block; two_blocks] (mkState [] 0 0) = Some final
          ∧ (0 ≤ 0 < 2 ^ 32 → 0 ≤ 0 < 2 ^ 32 →
               Writer final = [mkRecord "f" 1 [100; 50]]
               ∧ FunctionsProcessed final = 1
               ∧ FunctionsSkipped final = 1).
Proof.
  apply (zero_entry_frequency_skipped external_name external_name length_hash
           list_addRecord analysis_cold_g
           (module_plain [one_block; two_blocks]) (mkState [] 0 0)
           one_block [two_blocks] 0%nat).
  - reflexivity.
  - reflexivity.
Defined.
